(** * scripts/setup-supabase.py: a shallow embedding and its properties

    The script reads [.env], extracts the Supabase project reference from
    the configured URL, echoes [supabase/schema.sql] and prints OAuth
    set-up instructions.  Python text is modelled as a list of Unicode
    code points, the [.env] dictionary as a [gmap], and [main] in a small
    output-and-exception monad whose output events remember the source
    line of the [print] call that produced them.

    The model works on text: a file is given by the text that reading it
    in text mode delivers, and standard output by the texts passed to
    [print].  The encoding of the console, which lines 13-17 set on
    Windows, lies below that, and [print] is taken to succeed.  Line
    numbers are those of the source file. *)

From Stdlib Require Import NArith ZArith Ascii String Lia.
From stdpp Require Import gmap list.

(** ** Python [str] *)

Module PyStr.

(** A character is a Unicode code point, a [str] a sequence of them. *)
Abbreviation char := N (only parsing).
Abbreviation str := (list N) (only parsing).

(** An ASCII literal of the source, character by character. *)
Fixpoint lit (s : string) : str :=
  match s with
  | EmptyString => []
  | String a r => N_of_ascii a :: lit r
  end.

Definition NL : char := 10%N.
Definition DQUOTE : char := 34%N.

(** [s.startswith(p)] *)
Fixpoint startswith (p s : str) : bool :=
  match p, s with
  | [], _ => true
  | a :: p', b :: s' => N.eqb a b && startswith p' s'
  | _ :: _, [] => false
  end.

(** [c.isspace()] for one character: the code points CPython's
    [_PyUnicode_IsWhitespace] accepts, which are the ones [str.strip()]
    with no argument removes. *)
Definition isspace (c : char) : bool :=
  ((9 <=? c) && (c <=? 13) || (28 <=? c) && (c <=? 32)
   || (c =? 133) || (c =? 160) || (c =? 5760)
   || (8192 <=? c) && (c <=? 8202)
   || (c =? 8232) || (c =? 8233) || (c =? 8239) || (c =? 8287)
   || (c =? 12288))%N.

Fixpoint lstrip (s : str) : str :=
  match s with
  | [] => []
  | c :: t => if isspace c then lstrip t else s
  end.

Definition rstrip (s : str) : str := rev (lstrip (rev s)).

(** [s.strip()] *)
Definition strip (s : str) : str := rstrip (lstrip s).

(** [s.split(sep, 1)] for a one-character separator: the text before the
    first [sep] and the text after it, or [s] alone when [sep] does not
    occur. *)
Fixpoint split_once (sep : char) (s : str) : list str :=
  match s with
  | [] => [[]]
  | c :: t =>
      if N.eqb c sep then [[]; t]
      else match split_once sep t with
           | [a; b] => [c :: a; b]
           | _ => [s]
           end
  end.

(** [s.replace(old, new)]: scan from the left; at an occurrence of [old]
    emit [new] and resume after the occurrence, otherwise copy one
    character.  [fuel] bounds the number of scanning steps. *)
Fixpoint replace_n (fuel : nat) (old new s : str) : str :=
  match fuel with
  | O => s
  | S f =>
      match s with
      | [] => []
      | c :: t =>
          if startswith old s
          then new ++ replace_n f old new (drop (length old) s)
          else c :: replace_n f old new t
      end
  end.

Definition replace (old new s : str) : str :=
  match old with
  | [] => new ++ flat_map (fun c => c :: new) s
  | _ :: _ => replace_n (length s) old new s
  end.

(** [c * n] *)
Definition times (c : char) (n : nat) : str := replicate n c.

(** The lines a text file yields when iterated over: each line keeps its
    terminating newline, and a final line without one is yielded too. *)
Fixpoint readlines (s : str) : list str :=
  match s with
  | [] => []
  | c :: t =>
      if N.eqb c NL then [c] :: readlines t
      else match readlines t with
           | [] => [[c]]
           | l :: ls => (c :: l) :: ls
           end
  end.

End PyStr.

Import PyStr.

(** ** The fragment of [re] the script uses *)

Module Re.

(** Parsed patterns.  [Plus r] is the greedy [r+] for a [r] that matches
    one character ([MAX_REPEAT 1 MAXREPEAT] over a single item), [Group r]
    is capturing group 1. *)
Inductive regex :=
| Eps
| Literal (c : char)
| NotLiteral (c : char)
| Plus (item : regex)
| Group (r : regex)
| Seq (r1 r2 : regex).

(** Does the one-character item accept [c]? *)
Definition accepts (item : regex) (c : char) : bool :=
  match item with
  | Literal a => N.eqb c a
  | NotLiteral a => negb (N.eqb c a)
  | _ => false
  end.

(** Number of leading characters of [s] the item accepts. *)
Fixpoint span (item : regex) (s : str) : nat :=
  match s with
  | c :: t => if accepts item c then S (span item t) else O
  | [] => O
  end.

(** The counts a greedy repetition tries, longest first: [n, n-1, .., 1]. *)
Fixpoint countdown (n : nat) : list nat :=
  match n with
  | O => []
  | S m => n :: countdown m
  end.

(** A state of the matcher: the unread input and the text of group 1. *)
Definition state := (str * option str)%type.

(** All ways [r] can match a prefix of [s], in the order the backtracking
    matcher explores them. *)
Fixpoint exec (r : regex) (s : str) (g : option str) : list state :=
  match r with
  | Eps => [(s, g)]
  | Literal _ | NotLiteral _ =>
      match s with
      | c :: t => if accepts r c then [(t, g)] else []
      | [] => []
      end
  | Plus item => map (fun n => (drop n s, g)) (countdown (span item s))
  | Group r' =>
      map (fun st : state => (st.1, Some (take (length s - length st.1) s)))
          (exec r' s g)
  | Seq r1 r2 => flat_map (fun st : state => exec r2 st.1 st.2) (exec r1 s g)
  end.

(** A match object; only [group(1)] is observed. *)
Record Match := { group1 : option str }.

(** [re.match]: the first way the pattern matches at the start of [s]. *)
Definition match_here (r : regex) (s : str) : option Match :=
  match exec r s None with
  | st :: _ => Some {| group1 := st.2 |}
  | [] => None
  end.

(** [re.search]: the match at the leftmost start position that has one. *)
Fixpoint search (r : regex) (s : str) : option Match :=
  match match_here r s with
  | Some m => Some m
  | None =>
      match s with
      | [] => None
      | _ :: t => search r t
      end
  end.

(** A run of literal characters. *)
Fixpoint literals (w : str) : regex :=
  match w with
  | [] => Eps
  | c :: w' => Seq (Literal c) (literals w')
  end.

End Re.

(** ** The script *)

Module Script.

Import Re.

(** [r'https://([^.]+)\.supabase\.co'] *)
Definition DOT : char := 46%N.
Definition url_pattern : regex :=
  Seq (literals (lit "https://"))
      (Seq (Group (Plus (NotLiteral DOT)))
           (literals (lit ".supabase.co"))).

(** [extract_project_ref(supabase_url)] (lines 35-38); [None] is [None]. *)
Definition extract_project_ref (supabase_url : str) : option str :=
  match search url_pattern supabase_url with
  | Some m => group1 m
  | None => None
  end.

(** *** Files, output and exceptions *)

(** What the script finds at a path: nothing, a text file with the given
    contents (the text Python's text layer delivers when reading it), or
    something that exists but whose opening or reading raises an exception
    with the message [msg]. *)
Inductive file :=
| Missing
| Contents (text : str)
| Broken (msg : str).

Record world := { dotenv : file; schema_sql : file }.

(** [path.exists()] *)
Definition file_exists (f : file) : bool :=
  match f with
  | Missing => false
  | _ => true
  end.

(** [Exception msg] stands for an instance of any subclass of [Exception]
    whose [str()] is [msg]; [SystemExit] is not such a subclass. *)
Inductive exn :=
| Exception (msg : str)
| SystemExit (code : Z).

(** One call of [print]: the source line of the call and the text passed
    to it ([print] writes the text and a newline to standard output). *)
Record event := { at_line : nat; text : str }.

(** A computation prints and then either raises or returns. *)
Definition M (A : Type) : Type := (list event * (exn + A))%type.

Definition ret {A} (a : A) : M A := ([], inr a).

Definition bind {A B} (m : M A) (k : A -> M B) : M B :=
  match m with
  | (out, inl e) => (out, inl e)
  | (out, inr a) => let (out', r) := k a in (out ++ out', r)
  end.

Definition raise {A} (e : exn) : M A := ([], inl e).

Notation "x <- m ;; k" := (bind m (fun x => k))
  (at level 100, m at next level, right associativity).
Notation "m ;; k" := (bind m (fun _ => k))
  (at level 100, right associativity).

(** [print(s)].  The call is taken to succeed, as it does on a console
    that can show the text; on a console that cannot encode it Python's
    [print] raises, which is outside this model. *)
Definition print (line : nat) (s : str) : M unit :=
  ([{| at_line := line; text := s |}], inr tt).

(** [sys.exit(code)] *)
Definition sys_exit (code : Z) : M unit := raise (SystemExit code).

(** [if c: body] *)
Definition when (c : bool) (body : M unit) : M unit :=
  if c then body else ret tt.

(** [try: body  except Exception as e: handler(e)] *)
Definition try_except {A} (body : M A) (handler : str -> M A) : M A :=
  match body with
  | (out, inl (Exception msg)) =>
      let (out', r) := handler msg in (out ++ out', r)
  | _ => body
  end.

(** Reading a file: [open(path, 'r')] followed by iteration, or
    [path.read_text()].  [Contents t] holds the text [t] as text mode
    delivers it, decoded and with its line endings already translated
    ([on_disk] below gives the file for a text as it is stored).  Both
    callers have checked [exists()] before, so the [Missing] case is
    never reached. *)
Definition read_text (f : file) : M str :=
  match f with
  | Contents t => ret t
  | Broken msg => raise (Exception msg)
  | Missing => raise (Exception (lit "[Errno 2] No such file or directory"))
  end.

(** *** [load_env] (lines 19-33) *)

Definition EQUALS : char := 61%N.

(** Truth value of a [str]. *)
Definition nonempty (s : str) : bool :=
  match s with
  | [] => false
  | _ :: _ => true
  end.

(** The body of the [for line in f] loop. *)
Definition env_line (env : gmap str str) (line : str) : gmap str str :=
  let line := strip line in
  if nonempty line && negb (startswith (lit "#") line) then
    let parts := split_once EQUALS line in
    match parts with
    | [k; v] => <[strip k := strip v]> env
    | _ => env
    end
  else env.

(** The dictionary built from the text of [.env]. *)
Definition parse_env (text : str) : gmap str str :=
  foldl env_line ∅ (readlines text).

Definition load_env (w : world) : M (gmap str str) :=
  if negb (file_exists (dotenv w))
  then raise (Exception (lit ".env file not found"))
  else text <- read_text (dotenv w) ;; ret (parse_env text).

(** *** [main] (lines 40-120) *)

Definition ROCKET : char := 128640%N.      (* U+1F680 *)
Definition CROSS : char := 10060%N.        (* U+274C *)
Definition CLIPBOARD : char := 128203%N.   (* U+1F4CB *)
Definition MEMO : char := 128221%N.        (* U+1F4DD *)
Definition RULE : char := 9472%N.          (* U+2500 *)
Definition CHECKMARK : char := 9989%N.     (* U+2705 *)
Definition WARNING : char := 9888%N.       (* U+26A0 *)
Definition VS16 : char := 65039%N.         (* U+FE0F *)
Definition PADLOCK : char := 128272%N.     (* U+1F510 *)
Definition SPARKLES : char := 10024%N.     (* U+2728 *)

Definition NEXT_PUBLIC_SUPABASE_URL : str := lit "NEXT_PUBLIC_SUPABASE_URL".
Definition SUPABASE_SERVICE_ROLE_KEY : str := lit "SUPABASE_SERVICE_ROLE_KEY".

(** Truth value of the result of [env.get(k)] or of [extract_project_ref]:
    [None] and the empty string are false. *)
Definition truthy (v : option str) : bool :=
  match v with
  | Some (_ :: _) => true
  | _ => false
  end.

(** The string a value stands for where the script uses it as one.  The
    script only does so after it has exited on a false value, so the
    [None] case ([str(None)]) is never reached. *)
Definition str_of (v : option str) : str :=
  match v with
  | Some s => s
  | None => lit "None"
  end.

(** Line 95. *)
Definition callback_url (supabase_url : str) : str :=
  replace (lit "/rest/v1") [] supabase_url ++ lit "/auth/v1/callback".

(** Lines 72-83, the branch taken when [service_role_key] is true. *)
Definition key_found_branch (project_ref : str) : M unit :=
  print 72 (CHECKMARK :: lit " Service role key found") ;;
  print 73 ([NL; WARNING; VS16] ++ lit "  Note: Supabase JS/Python clients cannot execute raw SQL directly.") ;;
  print 74 (lit "   You have two options:" ++ [NL]) ;;
  print 75 (lit "   Option 1: Use Supabase Dashboard (Recommended)") ;;
  print 76 (lit "   1. Go to: https://supabase.com/dashboard/project/" ++ project_ref ++ lit "/sql/new") ;;
  print 77 (lit "   2. Copy and paste the SQL below") ;;
  print 78 (lit "   3. Click " ++ [DQUOTE] ++ lit "Run" ++ [DQUOTE; NL]) ;;
  print 79 (lit "   Option 2: Use Supabase CLI") ;;
  print 80 (lit "   1. Install: npm install -g supabase") ;;
  print 81 (lit "   2. Login: supabase login") ;;
  print 82 (lit "   3. Link: supabase link --project-ref " ++ project_ref) ;;
  print 83 (lit "   4. Push: supabase db push" ++ [NL]).

(** Lines 85-88, the [else] branch. *)
Definition key_missing_branch : M unit :=
  print 85 ([WARNING; VS16] ++ lit "  SUPABASE_SERVICE_ROLE_KEY not found in .env") ;;
  print 86 (lit "   Get it from: Settings > API > service_role key" ++ [NL]) ;;
  print 87 (lit "   Then add to .env:") ;;
  print 88 (lit "   SUPABASE_SERVICE_ROLE_KEY=your_key_here" ++ [NL]).

Definition main (w : world) : M unit :=
  try_except
    (print 42 (ROCKET :: lit " Supabase Database Setup" ++ [NL]) ;;
     env <- load_env w ;;
     let supabase_url := env !! NEXT_PUBLIC_SUPABASE_URL in
     let service_role_key := env !! SUPABASE_SERVICE_ROLE_KEY in
     when (negb (truthy supabase_url))
       (print 49 (CROSS :: lit " NEXT_PUBLIC_SUPABASE_URL not found in .env") ;;
        sys_exit 1) ;;
     let project_ref := extract_project_ref (str_of supabase_url) in
     when (negb (truthy project_ref))
       (print 54 (CROSS :: lit " Invalid Supabase URL format") ;;
        sys_exit 1) ;;
     print 57 (CLIPBOARD :: lit " Project Reference: " ++ str_of project_ref) ;;
     print 58 (CLIPBOARD :: lit " Supabase URL: " ++ str_of supabase_url ++ [NL]) ;;
     when (negb (file_exists (schema_sql w)))
       (print 63 (CROSS :: lit " supabase/schema.sql not found") ;;
        sys_exit 1) ;;
     sql <- read_text (schema_sql w) ;;
     print 68 (MEMO :: lit " SQL Schema Execution:") ;;
     print 69 (times RULE 60) ;;
     (if truthy service_role_key
      then key_found_branch (str_of project_ref)
      else key_missing_branch) ;;
     print 90 (CLIPBOARD :: lit " SQL Schema to Execute:") ;;
     print 91 (times RULE 60) ;;
     print 92 sql ;;
     print 93 (times RULE 60) ;;
     let callback_url := callback_url (str_of supabase_url) in
     print 97 ([NL; PADLOCK] ++ lit " OAuth Provider Configuration:") ;;
     print 98 (times RULE 60) ;;
     print 99 (lit "   Configure at: https://supabase.com/dashboard/project/" ++ str_of project_ref ++ lit "/auth/providers" ++ [NL]) ;;
     print 100 (lit "   Required redirect URL for ALL providers:") ;;
     print 101 (lit "   " ++ callback_url ++ [NL]) ;;
     print 102 (lit "   Providers to configure:") ;;
     print 103 (lit "   1. GitHub") ;;
     print 104 (lit "   2. Google") ;;
     print 105 (lit "   3. Facebook") ;;
     print 106 (lit "   4. Twitter (X)") ;;
     print 107 (lit "   5. Apple" ++ [NL]) ;;
     print 108 (lit "   For each provider:") ;;
     print 109 (lit "   - Enable the provider") ;;
     print 110 (lit "   - Add Client ID and Client Secret") ;;
     print 111 (lit "   - Set redirect URL to: " ++ callback_url) ;;
     print 112 (lit "   - Save configuration") ;;
     print 113 (times RULE 60) ;;
     print 115 ([NL; SPARKLES] ++ lit " Setup instructions displayed above!") ;;
     print 116 (lit "   Once SQL is executed and OAuth is configured, restart the app."))
    (fun e =>
       print 119 (CROSS :: lit " Error: " ++ e) ;;
       sys_exit 1).

(** *** Running the script (lines 122-123) *)

(** What a run leaves behind: the calls of [print] in order, what was
    written to standard error, and the exit status of the process. *)
Record result := {
  trace : list event;
  stderr : list str;
  exit_code : Z
}.

(** Standard output, one entry per [print]. *)
Definition stdout (r : result) : list str := map text (trace r).

(** The interpreter around [main()]: a normal return ends the process
    with status 0, [sys.exit(n)] with status [n], and an exception that
    reaches the top level is reported on standard error with status 1. *)
Definition run (w : world) : result :=
  match main w with
  | (out, inr _) => {| trace := out; stderr := []; exit_code := 0 |}
  | (out, inl (SystemExit code)) =>
      {| trace := out; stderr := []; exit_code := code |}
  | (out, inl (Exception msg)) =>
      {| trace := out;
         stderr := [lit "Traceback (most recent call last):"; msg];
         exit_code := 1 |}
  end.

End Script.

Import Script.

(** ** Vocabulary of the statements *)

Module Spec.

Import Re.

(** The URL of the shape [https://{ref}.supabase.co]. *)
Definition project_url (ref : str) : str :=
  lit "https://" ++ ref ++ lit ".supabase.co".

(** A non-empty segment without a dot. *)
Definition segment (seg : str) : bool :=
  nonempty seg && forallb (fun c => negb (N.eqb c DOT)) seg.

(** [s] reads [pre], then the project URL of the segment [seg], then
    [post]. *)
Definition occurs_at (pre seg post s : str) : Prop :=
  segment seg = true /\ s = pre ++ project_url seg ++ post.

(** The pattern occurs somewhere in [s]. *)
Definition has_project_url (s : str) : Prop :=
  exists pre seg post, occurs_at pre seg post s.

(** No occurrence of the pattern in [s] starts before position
    [length pre]. *)
Definition leftmost (pre s : str) : Prop :=
  forall pre' seg' post', occurs_at pre' seg' post' s -> length pre <= length pre'.

(** [old] occurs in [s]. *)
Definition occurs (old s : str) : Prop :=
  exists a b, s = a ++ old ++ b.

(** In [a ++ old ++ b] no occurrence of [old] starts before the one
    shown. *)
Definition first_occurrence (old a b : str) : Prop :=
  forall a' b', a ++ old ++ b = a' ++ old ++ b' -> length a <= length a'.

(** [s.endswith(p)] *)
Definition endswith (p s : str) : bool := startswith (rev p) (rev s).

(** [s] with the suffix [suf] removed when it ends with it (what
    [str.removesuffix] does). *)
Definition removesuffix (suf s : str) : str :=
  if endswith suf s then take (length s - length suf) s else s.

Definition REST_V1 : str := lit "/rest/v1".
Definition AUTH_CALLBACK : str := lit "/auth/v1/callback".

(** *** Lines of the configuration file *)

(** [line] is a line of the form KEY=VALUE that is neither blank nor a
    comment: without its surrounding whitespace it does not start with
    [#], and it splits at its first [=] into a part that, stripped, is the
    key [k] and a part that, stripped, is the value [v]. *)
Definition key_value_line (line k v : str) : Prop :=
  exists a b,
    strip line = a ++ [EQUALS] ++ b /\ ~ In EQUALS a /\
    startswith (lit "#") (strip line) = false /\
    k = strip a /\ v = strip b.

(** A blank line or a comment. *)
Definition ignored_line (line : str) : Prop :=
  strip line = [] \/ startswith (lit "#") (strip line) = true.

(** [line] is the last of [lines] that binds the key [k], and binds it to
    [v]. *)
Definition last_binding (lines : list str) (k v : str) : Prop :=
  exists before line after,
    lines = before ++ line :: after /\ key_value_line line k v /\
    forall l v', In l after -> ~ key_value_line l k v'.

(** *** The ways a run can end *)

(** The failures of the error taxonomy (missing configuration file,
    missing URL key, malformed URL, missing schema file, any other
    exception, raised while reading either file) and completion.  The
    arguments are what the transcript of the run depends on. *)
Inductive outcome :=
| EnvFileMissing
| EnvFileError (msg : str)
| UrlKeyMissing
| UrlInvalid
| SchemaMissing (url ref : str)
| SchemaError (url ref msg : str)
| Completed (url ref : str) (key : option str) (sql : str).

Definition outcome_of (w : world) : outcome :=
  match dotenv w with
  | Missing => EnvFileMissing
  | Broken msg => EnvFileError msg
  | Contents text =>
      let env := parse_env text in
      match env !! NEXT_PUBLIC_SUPABASE_URL with
      | None | Some [] => UrlKeyMissing
      | Some url =>
          match extract_project_ref url with
          | None => UrlInvalid
          | Some ref =>
              match schema_sql w with
              | Missing => SchemaMissing url ref
              | Broken msg => SchemaError url ref msg
              | Contents sql =>
                  Completed url ref (env !! SUPABASE_SERVICE_ROLE_KEY) sql
              end
          end
      end
  end.

Definition ev (line : nat) (s : str) : event := {| at_line := line; text := s |}.

Definition banner_text : str := ROCKET :: lit " Supabase Database Setup" ++ [NL].

Definition banner : event := ev 42 banner_text.

Definition url_key_error : str :=
  [CROSS] ++ lit " " ++ NEXT_PUBLIC_SUPABASE_URL ++ lit " not found in .env".

Definition url_format_error : str := CROSS :: lit " Invalid Supabase URL format".

Definition schema_missing_error : str := CROSS :: lit " supabase/schema.sql not found".

Definition env_missing_error : str := CROSS :: lit " Error: .env file not found".

Definition header (url ref : str) : list event :=
  [ev 57 (CLIPBOARD :: lit " Project Reference: " ++ ref);
   ev 58 (CLIPBOARD :: lit " Supabase URL: " ++ url ++ [NL])].

(** The events of the branch chosen at line 71. *)
Definition guidance (key : option str) (ref : str) : list event :=
  (if truthy key then key_found_branch ref else key_missing_branch).1.

Definition schema_echo (sql : str) : list event :=
  [ev 90 (CLIPBOARD :: lit " SQL Schema to Execute:");
   ev 91 (times RULE 60);
   ev 92 sql;
   ev 93 (times RULE 60)].

Definition oauth_instructions (url ref : str) : list event :=
  [ev 97 ([NL; PADLOCK] ++ lit " OAuth Provider Configuration:");
   ev 98 (times RULE 60);
   ev 99 (lit "   Configure at: https://supabase.com/dashboard/project/" ++ ref ++ lit "/auth/providers" ++ [NL]);
   ev 100 (lit "   Required redirect URL for ALL providers:");
   ev 101 (lit "   " ++ callback_url url ++ [NL]);
   ev 102 (lit "   Providers to configure:");
   ev 103 (lit "   1. GitHub");
   ev 104 (lit "   2. Google");
   ev 105 (lit "   3. Facebook");
   ev 106 (lit "   4. Twitter (X)");
   ev 107 (lit "   5. Apple" ++ [NL]);
   ev 108 (lit "   For each provider:");
   ev 109 (lit "   - Enable the provider");
   ev 110 (lit "   - Add Client ID and Client Secret");
   ev 111 (lit "   - Set redirect URL to: " ++ callback_url url);
   ev 112 (lit "   - Save configuration");
   ev 113 (times RULE 60);
   ev 115 ([NL; SPARKLES] ++ lit " Setup instructions displayed above!");
   ev 116 (lit "   Once SQL is executed and OAuth is configured, restart the app.")].

Definition failed (tr : list event) : result :=
  {| trace := tr; stderr := []; exit_code := 1 |}.

(** What a run with the given outcome leaves behind. *)
Definition report (o : outcome) : result :=
  match o with
  | EnvFileMissing => failed [banner; ev 119 env_missing_error]
  | EnvFileError msg => failed [banner; ev 119 (CROSS :: lit " Error: " ++ msg)]
  | UrlKeyMissing => failed [banner; ev 49 url_key_error]
  | UrlInvalid => failed [banner; ev 54 url_format_error]
  | SchemaMissing url ref =>
      failed (banner :: header url ref ++ [ev 63 schema_missing_error])
  | SchemaError url ref msg =>
      failed (banner :: header url ref ++ [ev 119 (CROSS :: lit " Error: " ++ msg)])
  | Completed url ref key sql =>
      {| trace :=
           banner :: header url ref
           ++ [ev 68 (MEMO :: lit " SQL Schema Execution:"); ev 69 (times RULE 60)]
           ++ guidance key ref
           ++ schema_echo sql
           ++ oauth_instructions url ref;
         stderr := [];
         exit_code := 0 |}
  end.

(** The message a failed run ends with. *)
Definition error_message (o : outcome) : option str :=
  match o with
  | EnvFileMissing => Some env_missing_error
  | EnvFileError msg | SchemaError _ _ msg => Some (CROSS :: lit " Error: " ++ msg)
  | UrlKeyMissing => Some url_key_error
  | UrlInvalid => Some url_format_error
  | SchemaMissing _ _ => Some schema_missing_error
  | Completed _ _ _ _ => None
  end.

(** The events of a trace that come from the source lines [lo] to [hi]. *)
Definition printed_by (lo hi : nat) (tr : list event) : list event :=
  List.filter (fun e => (lo <=? at_line e)%nat && (at_line e <=? hi)%nat) tr.

(** *** Executable counterparts used in the proofs *)

(** Equality of two texts, decided. *)
Fixpoint str_eqb (x y : str) : bool :=
  match x, y with
  | [], [] => true
  | a :: x', b :: y' => N.eqb a b && str_eqb x' y'
  | _, _ => false
  end.

(** Checking by evaluation that [old] starts at none of the first [n]
    positions of [s]. *)
Definition starts_nowhere (old s : str) (n : nat) : bool :=
  forallb (fun i => negb (startswith old (drop i s))) (seq 0 n).

(** The project reference the pattern captures when it matches at the
    start of [s]. *)
Definition ref_at (s : str) : option str :=
  if startswith (lit "https://") s then
    let r := drop 8 s in
    let n := span (NotLiteral DOT) r in
    if (0 <? n)%nat && startswith (lit ".supabase.co") (drop n r)
    then Some (take n r)
    else None
  else None.

(** The entry a line contributes, if any. *)
Definition entry_of (line : str) : option (str * str) :=
  let line := strip line in
  if nonempty line && negb (startswith (lit "#") line) then
    match split_once EQUALS line with
    | [k; v] => Some (strip k, strip v)
    | _ => None
    end
  else None.

(** *** Sample inputs *)

(** A text around two project URLs, after a URL with an empty segment. *)
Definition embedded_url : str :=
  lit "see https://.supabase.co, then https://abc.supabase.co/rest/v1 or https://zzz.supabase.co".

(** The configured URL with a trailing slash after the REST path. *)
Definition rest_url_with_slash : str := lit "https://abc.supabase.co/rest/v1/".

(** A configuration with a comment, a blank line, a key bound twice, a
    line without [=] and an indented comment. *)
Definition sample_cfg : str :=
  lit "# settings" ++ [NL; NL] ++ lit "  TOKEN = a=b " ++ [NL] ++
  lit "TOKEN=c==d" ++ [NL] ++ lit "not a pair" ++ [NL] ++ lit "  # X=1".

(** A configuration in which the URL key only occurs in a comment. *)
Definition cfg_without_url : str :=
  lit "SUPABASE_SERVICE_ROLE_KEY=secret" ++ [NL] ++
  lit "# NEXT_PUBLIC_SUPABASE_URL=https://abc.supabase.co" ++ [NL].

(** A configuration whose URL is not an https URL. *)
Definition cfg_with_http_url : str :=
  lit "NEXT_PUBLIC_SUPABASE_URL=http://abc.supabase.co".

(** The world in which the configuration file is missing. *)
Definition world_without_env : world := {| dotenv := Missing; schema_sql := Missing |}.

(** A well-formed configuration and schema. *)
Definition sample_world : world :=
  {| dotenv :=
       Contents (lit "NEXT_PUBLIC_SUPABASE_URL=https://abcdefgh.supabase.co" ++ [NL] ++
                 lit "SUPABASE_SERVICE_ROLE_KEY=secret" ++ [NL]);
     schema_sql := Contents (lit "create table t (id int);" ++ [NL]) |}.

(** A configuration file that has the secret but not the URL. *)
Definition world_with_key_only : world :=
  {| dotenv := Contents (lit "SUPABASE_SERVICE_ROLE_KEY=secret");
     schema_sql := Contents (lit "select 1;") |}.

(** Configurations with an empty URL, an empty secret and no secret. *)
Definition cfg_empty_url : str := lit "NEXT_PUBLIC_SUPABASE_URL=".

Definition cfg_empty_key : str :=
  lit "NEXT_PUBLIC_SUPABASE_URL=https://abcdefgh.supabase.co" ++ [NL] ++
  lit "SUPABASE_SERVICE_ROLE_KEY=" ++ [NL].

Definition cfg_no_key : str :=
  lit "NEXT_PUBLIC_SUPABASE_URL=https://abcdefgh.supabase.co" ++ [NL].

End Spec.

Import Spec.

(** ** Further vocabulary *)

Module Extra.

Definition SLASH : char := 47%N.

(** A text without a slash. *)
Definition slash_free (s : str) : bool :=
  forallb (fun c => negb (N.eqb c SLASH)) s.

(** The text starts with a whitespace character. *)
Definition edge_space (s : str) : bool :=
  match s with
  | [] => false
  | c :: _ => isspace c
  end.

(** No whitespace at either end. *)
Definition trimmed (s : str) : bool :=
  negb (edge_space s) && negb (edge_space (rev s)).

(** The configuration file can be read and binds the URL key to a value
    in which the project URL pattern occurs. *)
Definition acceptable_config (w : world) : Prop :=
  exists cfg url,
    dotenv w = Contents cfg /\
    parse_env cfg !! NEXT_PUBLIC_SUPABASE_URL = Some url /\
    has_project_url url.

(** The same world with another schema file. *)
Definition with_schema (w : world) (f : file) : world :=
  {| dotenv := dotenv w; schema_sql := f |}.

(** *** Sample inputs *)

(** Two configurations that differ in the secret and in a key the script
    does not read. *)
Definition cfg_secret_a : str :=
  lit "NEXT_PUBLIC_SUPABASE_URL=https://abcdefgh.supabase.co" ++ [NL] ++
  lit "SUPABASE_SERVICE_ROLE_KEY=first-secret" ++ [NL].

Definition cfg_secret_b : str :=
  lit "OTHER=1" ++ [NL] ++
  lit "SUPABASE_SERVICE_ROLE_KEY = another secret" ++ [NL] ++
  lit "NEXT_PUBLIC_SUPABASE_URL=https://abcdefgh.supabase.co".

(** A configuration in two parts, the second overriding a key of the
    first. *)
Definition cfg_part_1 : str := lit "A=1" ++ [NL] ++ lit "B=2" ++ [NL].
Definition cfg_part_2 : str := lit "B=3" ++ [NL] ++ lit "C=4".

(** A world whose schema file is missing, and one whose schema file
    cannot be read. *)
Definition world_without_schema : world :=
  {| dotenv := Contents cfg_secret_a; schema_sql := Missing |}.

Definition world_with_broken_schema : world :=
  {| dotenv := Contents cfg_secret_a;
     schema_sql := Broken (lit "[Errno 13] Permission denied") |}.

End Extra.

Import Extra.

(** ** Stored text and printed text *)

Module Shown.

Definition CR : char := 13%N.

(** What reading in text mode (the default [newline=None] of [open] and
    [read_text]) makes of the line endings of a stored text: [\r\n] and
    a lone [\r] both become [\n]. *)
Fixpoint universal_newlines (s : str) : str :=
  match s with
  | [] => []
  | c :: t =>
      if N.eqb c CR then
        match t with
        | c' :: t' =>
            if N.eqb c' NL then NL :: universal_newlines t'
            else NL :: universal_newlines t
        | [] => [NL]
        end
      else c :: universal_newlines t
  end.


(** The texts of the dashboard-and-CLI instructions (lines 72-83), for
    the project reference [ref]. *)
Definition dashboard_cli_guidance (ref : str) : list str :=
  [CHECKMARK :: lit " Service role key found";
   [NL; WARNING; VS16] ++ lit "  Note: Supabase JS/Python clients cannot execute raw SQL directly.";
   lit "   You have two options:" ++ [NL];
   lit "   Option 1: Use Supabase Dashboard (Recommended)";
   lit "   1. Go to: https://supabase.com/dashboard/project/" ++ ref ++ lit "/sql/new";
   lit "   2. Copy and paste the SQL below";
   lit "   3. Click " ++ [DQUOTE] ++ lit "Run" ++ [DQUOTE; NL];
   lit "   Option 2: Use Supabase CLI";
   lit "   1. Install: npm install -g supabase";
   lit "   2. Login: supabase login";
   lit "   3. Link: supabase link --project-ref " ++ ref;
   lit "   4. Push: supabase db push" ++ [NL]].

(** The texts of the missing-key guidance (lines 85-88). *)
Definition missing_key_guidance : list str :=
  [[WARNING; VS16] ++ lit "  SUPABASE_SERVICE_ROLE_KEY not found in .env";
   lit "   Get it from: Settings > API > service_role key" ++ [NL];
   lit "   Then add to .env:";
   lit "   SUPABASE_SERVICE_ROLE_KEY=your_key_here" ++ [NL]].

(** The guidance for a secret value: the dashboard-and-CLI instructions
    when it is present and not empty, the missing-key guidance
    otherwise. *)
Definition guidance_texts (key : option str) (ref : str) : list str :=
  match key with
  | Some (_ :: _) => dashboard_cli_guidance ref
  | Some [] | None => missing_key_guidance
  end.

(** Standard output of a run with the given outcome, text by text. *)
Definition expected_stdout (o : outcome) : list str :=
  match o with
  | EnvFileMissing => [banner_text; env_missing_error]
  | EnvFileError msg => [banner_text; CROSS :: lit " Error: " ++ msg]
  | UrlKeyMissing => [banner_text; url_key_error]
  | UrlInvalid => [banner_text; url_format_error]
  | SchemaMissing url ref =>
      [banner_text;
       CLIPBOARD :: lit " Project Reference: " ++ ref;
       CLIPBOARD :: lit " Supabase URL: " ++ url ++ [NL];
       schema_missing_error]
  | SchemaError url ref msg =>
      [banner_text;
       CLIPBOARD :: lit " Project Reference: " ++ ref;
       CLIPBOARD :: lit " Supabase URL: " ++ url ++ [NL];
       CROSS :: lit " Error: " ++ msg]
  | Completed url ref key sql =>
      [banner_text;
       CLIPBOARD :: lit " Project Reference: " ++ ref;
       CLIPBOARD :: lit " Supabase URL: " ++ url ++ [NL];
       MEMO :: lit " SQL Schema Execution:";
       times RULE 60]
      ++ guidance_texts key ref
      ++ [CLIPBOARD :: lit " SQL Schema to Execute:";
          times RULE 60;
          sql;
          times RULE 60]
      ++ map text (oauth_instructions url ref)
  end.

(** *** Sample inputs *)




(** A URL on another domain, which only starts like a project URL. *)
Definition com_url : str := lit "https://abc.supabase.com".

Definition world_with_com_url : world :=
  {| dotenv := Contents (lit "NEXT_PUBLIC_SUPABASE_URL=" ++ com_url);
     schema_sql := Contents (lit "select 1;") |}.

End Shown.

Import Shown.

(** * Properties *)

#[local] Arguments lit : simpl never.

(** ** Text *)

Section StrFacts.

Implicit Types (p s t : str) (c : char).

Lemma startswith_app p t : startswith p (p ++ t) = true.
Proof.
  induction p as [|a p IH]; simpl; [reflexivity|].
  rewrite N.eqb_refl. exact IH.
Qed.

Lemma startswith_inv p s : startswith p s = true -> s = p ++ drop (length p) s.
Proof.
  revert s. induction p as [|a p IH]; intros s H; simpl in *.
  - reflexivity.
  - destruct s as [|b s]; [discriminate|].
    apply andb_true_iff in H as [Hab Hps].
    apply N.eqb_eq in Hab. subst b. simpl. f_equal. apply IH, Hps.
Qed.

Lemma startswith_iff p s : startswith p s = true <-> exists t, s = p ++ t.
Proof.
  split.
  - intros H. eexists. apply startswith_inv, H.
  - intros [t ->]. apply startswith_app.
Qed.

Lemma startswith_cons_ne a p b s : a <> b -> startswith (a :: p) (b :: s) = false.
Proof.
  intros Hne. simpl. destruct (N.eqb_spec a b); [contradiction|reflexivity].
Qed.

Lemma str_eqb_eq s t : str_eqb s t = true <-> s = t.
Proof.
  revert t. induction s as [|a s IH]; intros [|b t]; simpl; split;
    try discriminate; try reflexivity.
  - intros H. apply andb_true_iff in H as [H1 H2].
    apply N.eqb_eq in H1. apply IH in H2. congruence.
  - intros [= -> ->]. rewrite N.eqb_refl. apply IH. reflexivity.
Qed.

(** [strip] removes whitespace, and only whitespace, from both ends. *)
Lemma lstrip_decomp s :
  exists ws, s = ws ++ lstrip s /\ forallb isspace ws = true.
Proof.
  induction s as [|c s (ws & E & Hws)]; [exists []; split; reflexivity|].
  cbn [lstrip]. destruct (isspace c) eqn:Hc.
  - exists (c :: ws). split; [cbn [app]; f_equal; exact E|].
    cbn [forallb]. rewrite Hc. exact Hws.
  - exists []. split; reflexivity.
Qed.

Lemma lstrip_head s c t : lstrip s = c :: t -> isspace c = false.
Proof.
  induction s as [|a s IH]; cbn [lstrip]; [discriminate|].
  destruct (isspace a) eqn:Ha; [exact IH|]. intros [= -> _]. exact Ha.
Qed.

Lemma lstrip_app_nonspace s c :
  isspace c = false -> lstrip (s ++ [c]) = lstrip s ++ [c].
Proof.
  intros Hc. induction s as [|a s IH]; cbn [app lstrip].
  - rewrite Hc. reflexivity.
  - destruct (isspace a); [exact IH|reflexivity].
Qed.

Lemma rstrip_cons_nonspace c t :
  isspace c = false -> rstrip (c :: t) = c :: rstrip t.
Proof.
  intros Hc. unfold rstrip. cbn [rev].
  rewrite (lstrip_app_nonspace _ _ Hc), rev_app_distr. reflexivity.
Qed.

Lemma strip_decomp s :
  exists l r,
    s = l ++ strip s ++ r /\ forallb isspace l = true /\ forallb isspace r = true.
Proof.
  unfold strip, rstrip.
  destruct (lstrip_decomp s) as (l & El & Hl).
  destruct (lstrip_decomp (rev (lstrip s))) as (r & Er & Hr).
  exists l, (rev r). split; [|split; [exact Hl|]].
  - rewrite <- rev_app_distr, <- Er, rev_involutive. exact El.
  - rewrite forallb_forall in *. intros x Hx. apply Hr, in_rev, Hx.
Qed.

Lemma strip_first s c t : strip s = c :: t -> isspace c = false.
Proof.
  unfold strip. destruct (lstrip s) as [|a u] eqn:E; [discriminate|].
  pose proof (lstrip_head _ _ _ E) as Ha.
  rewrite (rstrip_cons_nonspace _ _ Ha). intros [= -> _]. exact Ha.
Qed.

Lemma strip_last s t c : strip s = t ++ [c] -> isspace c = false.
Proof.
  unfold strip, rstrip. intros E. apply (f_equal (@rev N)) in E.
  rewrite rev_involutive, rev_app_distr in E. exact (lstrip_head _ _ _ E).
Qed.

(** The lines of a text, put together again, are the text; every line
    but the last ends with a newline, and a line contains none before
    its end. *)
Lemma readlines_concat s : concat (readlines s) = s.
Proof.
  induction s as [|c s IH]; cbn [readlines]; [reflexivity|].
  destruct (N.eqb c NL).
  - cbn [concat app]. f_equal. exact IH.
  - destruct (readlines s) as [|l ls]; cbn [concat app] in *.
    + rewrite <- IH. reflexivity.
    + f_equal. exact IH.
Qed.

Lemma readlines_shape s :
  Forall (fun l => exists body,
            ~ In NL body /\ (l = body ++ [NL] \/ (l = body /\ body <> [])))
         (readlines s).
Proof.
  induction s as [|c s IH]; cbn [readlines]; [constructor|].
  destruct (N.eqb_spec c NL) as [->|Hc].
  - constructor; [|exact IH]. exists []. split; [intros []|left; reflexivity].
  - destruct (readlines s) as [|l ls].
    + constructor; [|constructor]. exists [c].
      split; [intros [E|[]]; congruence|right; split; [reflexivity|discriminate]].
    + inversion IH as [|? ? (body & Hb & Hl) Hls]; subst.
      constructor; [|exact Hls]. exists (c :: body).
      split; [intros [E|Hin]; [congruence|contradiction]|].
      destruct Hl as [->|[-> _]]; [left; reflexivity|right; split; [reflexivity|discriminate]].
Qed.

Lemma readlines_inner s :
  Forall (fun l => exists body, l = body ++ [NL]) (removelast (readlines s)).
Proof.
  induction s as [|c s IH]; cbn [readlines]; [constructor|].
  destruct (N.eqb_spec c NL) as [->|Hc].
  - destruct (readlines s) as [|l ls] eqn:E; [constructor|].
    change (removelast ([NL] :: l :: ls)) with ([NL] :: removelast (l :: ls)).
    constructor; [exists []; reflexivity|exact IH].
  - destruct (readlines s) as [|l ls]; [constructor|].
    destruct ls as [|l' ls]; [constructor|].
    change (removelast ((c :: l) :: l' :: ls)) with ((c :: l) :: removelast (l' :: ls)).
    change (removelast (l :: l' :: ls)) with (l :: removelast (l' :: ls)) in IH.
    inversion IH as [|? ? (body & ->) Hrest]; subst.
    constructor; [exists (c :: body); reflexivity|exact Hrest].
Qed.

Lemma replace_n_nil fuel old new : replace_n fuel old new [] = [].
Proof. destruct fuel; reflexivity. Qed.

(** Any fuel of at least the length of the text gives the same result. *)
Lemma replace_n_enough old new f1 f2 s :
  old <> [] -> length s <= f1 -> length s <= f2 ->
  replace_n f1 old new s = replace_n f2 old new s.
Proof.
  intros Hold. revert f2 s.
  induction f1 as [|f1 IH]; intros f2 s H1 H2.
  - destruct s; [|simpl in H1; lia]. rewrite !replace_n_nil. reflexivity.
  - destruct s as [|c t]; [rewrite !replace_n_nil; reflexivity|].
    destruct f2 as [|f2]; simpl in H1, H2; [lia|].
    cbn [replace_n].
    destruct (startswith old (c :: t)).
    + f_equal. apply IH; rewrite length_drop;
        (destruct old; [congruence|simpl; lia]).
    + f_equal. apply IH; lia.
Qed.

Lemma replace_n_fuel old new fuel s :
  old <> [] -> length s <= fuel ->
  replace_n fuel old new s = replace_n (length s) old new s.
Proof. intros Hold Hlen. apply replace_n_enough; [exact Hold|lia|lia]. Qed.

Lemma replace_nil old new : old <> [] -> replace old new [] = [].
Proof. destruct old; [congruence|reflexivity]. Qed.

(** At an occurrence, [new] is emitted and the scan resumes after it. *)
Lemma replace_hit old new t :
  old <> [] -> replace old new (old ++ t) = new ++ replace old new t.
Proof.
  intros Hold. destruct old as [|o old]; [congruence|].
  unfold replace. cbn [app length replace_n].
  change (o :: old ++ t) with ((o :: old) ++ t).
  rewrite startswith_app.
  change (S (length old)) with (length (o :: old)) at 1.
  rewrite drop_app_length.
  rewrite length_app. rewrite (replace_n_fuel _ _ _ t); [reflexivity|discriminate|lia].
Qed.

(** Elsewhere one character is copied. *)
Lemma replace_miss old new c t :
  old <> [] -> startswith old (c :: t) = false ->
  replace old new (c :: t) = c :: replace old new t.
Proof.
  intros Hold Hmiss. destruct old as [|o old]; [congruence|].
  unfold replace. cbn [length replace_n]. rewrite Hmiss. reflexivity.
Qed.

Lemma occurs_startswith old s :
  occurs old s <-> exists i, i <= length s /\ startswith old (drop i s) = true.
Proof.
  split.
  - intros (a & b & ->). exists (length a). split.
    + rewrite length_app. lia.
    + rewrite drop_app_length. apply startswith_app.
  - intros (i & Hi & H). apply startswith_inv in H.
    exists (take i s), (drop (length old) (drop i s)).
    rewrite <- H, take_drop. reflexivity.
Qed.

(** Up to the first occurrence the text is copied. *)
Lemma replace_first old new a b :
  old <> [] -> first_occurrence old a b ->
  replace old new (a ++ old ++ b) = a ++ new ++ replace old new b.
Proof.
  intros Hold. induction a as [|c a IH]; intros Hfirst.
  - rewrite !app_nil_l. apply replace_hit, Hold.
  - cbn [app]. rewrite replace_miss; [f_equal; apply IH| exact Hold |].
    + intros a' b' E. specialize (Hfirst (c :: a') b').
      simpl in Hfirst. rewrite E in Hfirst. specialize (Hfirst eq_refl). lia.
    + apply not_true_is_false. intros E.
      apply startswith_inv in E. specialize (Hfirst [] _ E). simpl in Hfirst. lia.
Qed.

(** A text without an occurrence is copied whole. *)
Lemma replace_absent old new s :
  old <> [] -> ~ occurs old s -> replace old new s = s.
Proof.
  intros Hold. induction s as [|c s IH]; intros Hno.
  - apply replace_nil, Hold.
  - rewrite replace_miss; [f_equal; apply IH| exact Hold |].
    + intros (a & b & ->). apply Hno. exists (c :: a), b. reflexivity.
    + apply not_true_is_false. intros E.
      apply Hno. apply startswith_inv in E. exists [], (drop (length old) (c :: s)).
      exact E.
Qed.

Lemma starts_nowhere_spec old s n i :
  starts_nowhere old s n = true -> i < n -> startswith old (drop i s) = false.
Proof.
  unfold starts_nowhere. rewrite forallb_forall. intros H Hi.
  apply negb_true_iff, H, in_seq. lia.
Qed.

Lemma absent_by_evaluation old s :
  starts_nowhere old s (S (length s)) = true -> ~ occurs old s.
Proof.
  intros H Hocc. apply occurs_startswith in Hocc as (i & Hi & Hst).
  rewrite (starts_nowhere_spec old s _ i H) in Hst by lia. discriminate.
Qed.

Lemma first_occurrence_by_evaluation old a b :
  starts_nowhere old (a ++ old ++ b) (length a) = true ->
  first_occurrence old a b.
Proof.
  intros H a' b' E.
  destruct (Nat.le_gt_cases (length a) (length a')) as [|Hlt]; [assumption|].
  pose proof (starts_nowhere_spec old _ _ (length a') H Hlt) as Hst.
  rewrite E, drop_app_length, startswith_app in Hst. discriminate.
Qed.

End StrFacts.

(** ** The matcher on the project URL pattern *)

Section PatternFacts.

Import Re.

Implicit Types (s t seg pre post : str) (g : option str).

Lemma flat_map_all_nil {A B} (f : A -> list B) (l : list A) :
  (forall x, In x l -> f x = []) -> flat_map f l = [].
Proof.
  induction l as [|x l IH]; intros H; simpl; [reflexivity|].
  rewrite (H x) by (left; reflexivity). apply IH.
  intros y Hy. apply H. right. exact Hy.
Qed.

Lemma in_countdown k n : In k (countdown n) <-> 1 <= k <= n.
Proof.
  induction n as [|n IH]; simpl.
  - lia.
  - rewrite IH. lia.
Qed.

Lemma exec_literals w s g :
  exec (literals w) s g =
  if startswith w s then [(drop (length w) s, g)] else [].
Proof.
  revert s. induction w as [|c w IH]; intros s; simpl.
  - reflexivity.
  - destruct s as [|b s]; simpl; [reflexivity|].
    rewrite (N.eqb_sym c b).
    destruct (N.eqb b c); simpl; [|reflexivity].
    rewrite IH, app_nil_r. reflexivity.
Qed.

Lemma span_le item s : span item s <= length s.
Proof.
  induction s as [|c s IH]; simpl; [lia|].
  destruct (accepts item c); simpl; lia.
Qed.

(** Inside the span every character is accepted. *)
Lemma span_inside item s k :
  k < span item s ->
  exists c t, drop k s = c :: t /\ accepts item c = true.
Proof.
  revert k. induction s as [|b s IH]; intros k Hk; simpl in *; [lia|].
  destruct (accepts item b) eqn:Hb; [|lia].
  destruct k as [|k]; simpl.
  - eauto.
  - apply IH. lia.
Qed.

Lemma span_take item s :
  Forall (fun c => accepts item c = true) (take (span item s) s).
Proof.
  induction s as [|b s IH]; simpl; [constructor|].
  destruct (accepts item b) eqn:Hb; simpl; constructor; assumption.
Qed.

(** A run of accepted characters followed by the end of the text or by a
    character that is not accepted is exactly the span. *)
Lemma span_app item seg t :
  Forall (fun c => accepts item c = true) seg ->
  match t with [] => True | c :: _ => accepts item c = false end ->
  span item (seg ++ t) = length seg.
Proof.
  intros Hseg Ht. induction Hseg as [|c seg Hc _ IH]; simpl.
  - destruct t as [|c t]; simpl; [reflexivity|]. rewrite Ht. reflexivity.
  - rewrite Hc, IH. reflexivity.
Qed.

Lemma exec_group_plus item s g :
  exec (Group (Plus item)) s g =
  map (fun k => (drop k s, Some (take k s))) (countdown (span item s)).
Proof.
  simpl. rewrite map_map. apply map_ext_in.
  intros k Hk. apply in_countdown in Hk. simpl.
  pose proof (span_le item s).
  rewrite length_drop. do 3 f_equal. lia.
Qed.

Lemma exec_seq r1 r2 s g :
  exec (Seq r1 r2) s g = flat_map (fun st : state => exec r2 st.1 st.2) (exec r1 s g).
Proof. reflexivity. Qed.

(** After the greedy group only the longest count can be followed by a dot:
    every shorter count leaves a character other than a dot next. *)
Lemma exec_group_then_dot w s g :
  let n := span (NotLiteral DOT) s in
  exec (Seq (Group (Plus (NotLiteral DOT))) (literals (DOT :: w))) s g =
  if (0 <? n)%nat && startswith (DOT :: w) (drop n s)
  then [(drop (S (length w)) (drop n s), Some (take n s))]
  else [].
Proof.
  intros n. rewrite exec_seq, exec_group_plus. fold n.
  assert (Hshort : forall k, 1 <= k < n ->
            exec (literals (DOT :: w)) (drop k s) (Some (take k s)) = []).
  { intros k Hk. destruct (span_inside (NotLiteral DOT) s k) as (c & t & Hd & Hc);
      [unfold n in Hk; lia|].
    rewrite exec_literals, Hd. simpl in Hc.
    rewrite startswith_cons_ne; [reflexivity|].
    intros <-. rewrite N.eqb_refl in Hc. discriminate. }
  destruct n as [|m]; [reflexivity|].
  change (countdown (S m)) with (S m :: countdown m).
  cbn [map flat_map fst snd].
  rewrite flat_map_all_nil, app_nil_r.
  - rewrite exec_literals. reflexivity.
  - intros st Hst. apply in_map_iff in Hst as (k & <- & Hk).
    apply in_countdown in Hk. cbn [fst snd]. apply Hshort. lia.
Qed.

Lemma match_here_url s :
  match_here url_pattern s =
  match ref_at s with
  | Some seg => Some {| group1 := Some seg |}
  | None => None
  end.
Proof.
  unfold match_here, url_pattern, ref_at.
  rewrite exec_seq, exec_literals.
  destruct (startswith (lit "https://") s); [|reflexivity].
  cbn [flat_map fst snd]. rewrite app_nil_r.
  change (lit ".supabase.co") with (DOT :: lit "supabase.co").
  rewrite exec_group_then_dot.
  change (length (lit "https://")) with 8.
  destruct (_ && _); reflexivity.
Qed.

Lemma segment_iff seg :
  segment seg = true <->
  seg <> [] /\ Forall (fun c => accepts (NotLiteral DOT) c = true) seg.
Proof.
  unfold segment. rewrite andb_true_iff, forallb_forall, Forall_forall.
  setoid_rewrite <- list_elem_of_In.
  destruct seg; simpl; intuition congruence.
Qed.

(** What [ref_at] computes, said without the matcher: [s] starts with the
    project URL of the segment. *)
Lemma ref_at_spec s seg :
  ref_at s = Some seg <-> exists post, occurs_at [] seg post s.
Proof.
  unfold occurs_at, ref_at. split.
  - destruct (startswith (lit "https://") s) eqn:H1; [|discriminate].
    cbv zeta. set (r := drop 8 s). set (n := span (NotLiteral DOT) r).
    destruct ((0 <? n)%nat && _) eqn:H2; [|discriminate].
    intros [= <-]. apply andb_true_iff in H2 as [Hn H2].
    apply Nat.ltb_lt in Hn. apply startswith_inv in H1, H2.
    exists (drop (length (lit ".supabase.co")) (drop n r)). split.
    + apply segment_iff. split.
      * intros Hnil. apply (f_equal length) in Hnil.
        rewrite length_take in Hnil. pose proof (span_le (NotLiteral DOT) r).
        fold n in H. simpl in Hnil. lia.
      * apply span_take.
    + rewrite app_nil_l. unfold project_url. rewrite <- !app_assoc, <- H2.
      rewrite take_drop. exact H1.
  - intros (post & Hseg & ->). apply segment_iff in Hseg as [Hne Hall].
    rewrite app_nil_l. unfold project_url. rewrite <- !app_assoc.
    rewrite startswith_app.
    change 8 with (length (lit "https://")). rewrite drop_app_length.
    cbv zeta. rewrite span_app; [|exact Hall|reflexivity].
    rewrite drop_app_length, take_app_length, startswith_app.
    destruct seg; [congruence|reflexivity].
Qed.

(** [search] skips a prefix at whose positions the pattern does not
    match. *)
Lemma search_skip r pre s :
  (forall i, i < length pre -> match_here r (drop i (pre ++ s)) = None) ->
  search r (pre ++ s) = search r s.
Proof.
  induction pre as [|c pre IH]; intros H; [reflexivity|].
  assert (H0 : match_here r (c :: pre ++ s) = None)
    by (apply (H 0); simpl; lia).
  cbn [app search]. rewrite H0.
  apply IH. intros i Hi. apply (H (S i)). simpl. lia.
Qed.

Lemma search_here r s m : match_here r s = Some m -> search r s = Some m.
Proof. intros H. destruct s; simpl; rewrite H; reflexivity. Qed.

Lemma search_None r s :
  search r s = None <-> forall i, i <= length s -> match_here r (drop i s) = None.
Proof.
  induction s as [|c s IH]; cbn [search].
  - destruct (match_here r []) eqn:E; split; try discriminate; try reflexivity.
    + intros H. specialize (H 0). simpl in H. rewrite E in H.
      apply H. lia.
    + intros _ i _. destruct i; exact E.
  - destruct (match_here r (c :: s)) eqn:E.
    + split; [discriminate|]. intros H. specialize (H 0). simpl in H.
      rewrite E in H. apply H. lia.
    + rewrite IH. split.
      * intros H [|i] Hi; [exact E|]. apply H. simpl in Hi. lia.
      * intros H i Hi. apply (H (S i)). simpl. lia.
Qed.

(** The result of [extract_project_ref] in terms of occurrences. *)
Lemma extract_Some_of_leftmost pre seg post :
  segment seg = true ->
  leftmost pre (pre ++ project_url seg ++ post) ->
  extract_project_ref (pre ++ project_url seg ++ post) = Some seg.
Proof.
  intros Hseg Hleft. unfold extract_project_ref.
  rewrite search_skip.
  - rewrite (search_here _ _ {| group1 := Some seg |}); [reflexivity|].
    rewrite match_here_url.
    replace (ref_at (project_url seg ++ post)) with (Some seg); [reflexivity|].
    symmetry. apply ref_at_spec. exists post. split; [exact Hseg|reflexivity].
  - intros i Hi. rewrite match_here_url.
    destruct (ref_at _) as [seg'|] eqn:E; [|reflexivity].
    apply ref_at_spec in E as (post' & Hseg' & E).
    exfalso. specialize (Hleft (take i pre) seg' post').
    rewrite length_take in Hleft. enough (length pre <= i `min` length pre) by lia.
    apply Hleft. split; [exact Hseg'|].
    rewrite app_nil_l in E. rewrite <- E.
    rewrite <- (take_drop i (pre ++ project_url seg ++ post)) at 1.
    f_equal. apply take_app_le. lia.
Qed.

(** A match of the pattern always carries group 1. *)
Lemma search_url_group s m :
  search url_pattern s = Some m -> exists seg, m = {| group1 := Some seg |}.
Proof.
  induction s as [|c s IH]; cbn [search]; rewrite match_here_url;
    destruct (ref_at _) as [seg|]; intros E; try discriminate.
  - injection E as <-. eauto.
  - injection E as <-. eauto.
  - apply IH, E.
Qed.

Lemma search_url_occurrence s m :
  search url_pattern s = Some m -> has_project_url s.
Proof.
  induction s as [|c s IH]; cbn [search]; rewrite match_here_url;
    destruct (ref_at _) as [seg|] eqn:Hr; intros E; try discriminate;
    try (apply ref_at_spec in Hr as (post & Hocc); exists [], seg, post; exact Hocc).
  destruct (IH E) as (pre & seg & post & Hseg & ->).
  exists (c :: pre), seg, post. split; [exact Hseg|reflexivity].
Qed.

Lemma extract_None_iff s :
  extract_project_ref s = None <-> ~ has_project_url s.
Proof.
  unfold extract_project_ref. split.
  - intros H (pre & seg & post & Hseg & ->).
    destruct (search url_pattern _) as [m|] eqn:E.
    + apply search_url_group in E as (seg' & ->). discriminate.
    + pose proof (proj1 (search_None _ _) E (length pre)) as Hn.
      rewrite drop_app_length, match_here_url in Hn.
      replace (ref_at (project_url seg ++ post)) with (Some seg) in Hn.
      * discriminate Hn. rewrite length_app. lia.
      * symmetry. apply ref_at_spec. exists post. split; [exact Hseg|reflexivity].
  - intros Hno. destruct (search url_pattern s) as [m|] eqn:E; [|reflexivity].
    exfalso. apply Hno. eapply search_url_occurrence, E.
Qed.

(** A project reference, when one is found, is a non-empty segment. *)
Lemma extract_Some_segment s ref :
  extract_project_ref s = Some ref -> segment ref = true.
Proof.
  unfold extract_project_ref.
  induction s as [|c s IH]; cbn [search]; rewrite match_here_url;
    destruct (ref_at _) as [seg|] eqn:Hr; try discriminate;
    try (intros [= <-]; apply ref_at_spec in Hr as (post & Hseg & _); exact Hseg).
  exact IH.
Qed.

End PatternFacts.

(** ** The project reference (C3, C9) *)

Section ProjectRef.

Import Re.

(** When a reference is found it is the segment of an occurrence before
    which no other occurrence starts. *)
Lemma extract_Some_leftmost s seg :
  extract_project_ref s = Some seg ->
  exists pre post, occurs_at pre seg post s /\ leftmost pre s.
Proof.
  unfold extract_project_ref. revert seg.
  induction s as [|c s IH]; intros seg; cbn [search]; rewrite match_here_url;
    destruct (ref_at _) as [seg0|] eqn:Hr; try discriminate;
    try (intros [= <-]; apply ref_at_spec in Hr as (post & Hocc);
         exists [], post; split; [exact Hocc|intros ? ? ? _; simpl; lia]).
  intros E. destruct (IH _ E) as (pre & post & [Hseg ->] & Hleft).
  exists (c :: pre), post. split; [split; [exact Hseg|reflexivity]|].
  intros pre' seg' post' [Hseg' E']. destruct pre' as [|c' pre'].
  - exfalso. assert (Some seg' = None) as [=].
    rewrite <- Hr. symmetry. apply ref_at_spec. exists post'.
    split; [exact Hseg'|exact E'].
  - simpl in E'. injection E' as _ E'. simpl.
    enough (length pre <= length pre') by lia.
    apply (Hleft pre' seg' post'). split; [exact Hseg'|exact E'].
Qed.

(** C3.  For every URL of the shape https://{ref}.supabase.co whose {ref}
    is a non-empty segment without a dot, extract_project_ref returns
    {ref}. *)
Theorem extract_project_ref_of_project_url (ref : str) :
  segment ref = true ->
  extract_project_ref (project_url ref) = Some ref.
Proof.
  intros Hseg.
  rewrite <- (app_nil_r (project_url ref)).
  apply (extract_Some_of_leftmost [] ref []); [exact Hseg|].
  intros pre' seg' post' _. simpl. lia.
Qed.

(** The example of the specification: https://abcdefgh.supabase.co yields
    abcdefgh. *)
Lemma extract_project_ref_abcdefgh :
  segment (lit "abcdefgh") = true /\
  extract_project_ref (lit "https://abcdefgh.supabase.co") = Some (lit "abcdefgh").
Proof.
  split; [reflexivity|].
  exact (extract_project_ref_of_project_url (lit "abcdefgh") eq_refl).
Defined.

(** C9.  The pattern is searched for anywhere in the input: whenever the
    input contains https://{seg}.supabase.co for some non-empty dot-free
    {seg}, whatever text precedes or follows it, extract_project_ref
    returns the {seg} of the occurrence that starts first. *)
Theorem extract_project_ref_unanchored (s : str) :
  has_project_url s ->
  (exists pre seg post,
     occurs_at pre seg post s /\ leftmost pre s /\
     extract_project_ref s = Some seg) /\
  (forall pre seg post,
     occurs_at pre seg post s -> leftmost pre s ->
     extract_project_ref s = Some seg).
Proof.
  intros Hhas. split.
  - destruct (extract_project_ref s) as [seg|] eqn:E.
    + destruct (extract_Some_leftmost s seg E) as (pre & post & Hocc & Hleft).
      exists pre, seg, post. auto.
    + exfalso. apply extract_None_iff in E. apply E, Hhas.
  - intros pre seg post [Hseg ->] Hleft.
    apply extract_Some_of_leftmost; assumption.
Qed.

Lemma extract_project_ref_unanchored_witness :
  has_project_url embedded_url /\
  (exists pre seg post,
     occurs_at pre seg post embedded_url /\ leftmost pre embedded_url /\
     extract_project_ref embedded_url = Some seg) /\
  (forall pre seg post,
     occurs_at pre seg post embedded_url -> leftmost pre embedded_url ->
     extract_project_ref embedded_url = Some seg).
Proof.
  assert (Hhas : has_project_url embedded_url).
  { exists (lit "see https://.supabase.co, then "), (lit "abc"),
      (lit "/rest/v1 or https://zzz.supabase.co").
    split; reflexivity. }
  split; [exact Hhas|].
  exact (extract_project_ref_unanchored embedded_url Hhas).
Defined.

Example extract_embedded_url : extract_project_ref embedded_url = Some (lit "abc").
Proof. vm_compute. reflexivity. Qed.

End ProjectRef.

(** ** The callback URL (C1) *)

Section CallbackUrl.

(** C1, as stated, fails: an occurrence of /rest/v1 that is not a suffix
    of the URL is removed as well. *)
Lemma callback_url_removes_inner_occurrence :
  callback_url rest_url_with_slash = lit "https://abc.supabase.co//auth/v1/callback" /\
  callback_url rest_url_with_slash <>
    removesuffix REST_V1 rest_url_with_slash ++ AUTH_CALLBACK.
Proof.
  split; [vm_compute; reflexivity|].
  intros H. apply str_eqb_eq in H. vm_compute in H. discriminate H.
Qed.

(** C1, amended.  The callback URL is the configured URL with every
    occurrence of /rest/v1 removed, wherever it stands, followed by
    /auth/v1/callback: a URL without an occurrence is kept whole; up to
    and including its first occurrence a URL loses exactly that
    occurrence, the rest being treated the same way; so a URL whose only
    occurrence is its suffix loses that suffix. *)
Theorem callback_url_removes_every_occurrence :
  (forall url, ~ occurs REST_V1 url -> callback_url url = url ++ AUTH_CALLBACK) /\
  (forall a b, first_occurrence REST_V1 a b ->
     callback_url (a ++ REST_V1 ++ b) = a ++ callback_url b) /\
  (forall base, first_occurrence REST_V1 base [] ->
     callback_url (base ++ REST_V1) = base ++ AUTH_CALLBACK).
Proof.
  assert (Hfirst : forall a b, first_occurrence REST_V1 a b ->
            callback_url (a ++ REST_V1 ++ b) = a ++ callback_url b).
  { intros a b Hfirst. unfold callback_url. fold REST_V1.
    rewrite replace_first; [|discriminate|exact Hfirst].
    rewrite app_nil_l, <- app_assoc. reflexivity. }
  split; [|split].
  - intros url Hno. unfold callback_url. fold REST_V1.
    rewrite replace_absent; [reflexivity|discriminate|exact Hno].
  - exact Hfirst.
  - intros base Hbase.
    replace (base ++ REST_V1) with (base ++ REST_V1 ++ [])
      by (rewrite app_nil_r; reflexivity).
    rewrite (Hfirst base [] Hbase). reflexivity.
Qed.

Lemma callback_url_removes_every_occurrence_witness :
  callback_url (lit "https://abc.supabase.co") =
    lit "https://abc.supabase.co" ++ AUTH_CALLBACK /\
  callback_url (lit "https://abc.supabase.co" ++ REST_V1 ++ lit "/" ++ REST_V1) =
    lit "https://abc.supabase.co" ++ callback_url (lit "/" ++ REST_V1) /\
  callback_url (lit "https://abc.supabase.co" ++ REST_V1) =
    lit "https://abc.supabase.co" ++ AUTH_CALLBACK.
Proof.
  destruct callback_url_removes_every_occurrence as (Habsent & Hfirst & Hsuffix).
  split; [|split].
  - apply Habsent, absent_by_evaluation. reflexivity.
  - apply Hfirst, first_occurrence_by_evaluation. reflexivity.
  - apply Hsuffix, first_occurrence_by_evaluation. reflexivity.
Defined.

End CallbackUrl.

(** ** Runs *)

Section Runs.

(** Every run ends in one of the seven ways, and leaves behind what
    [report] says. *)
Lemma run_report (w : world) : run w = report (outcome_of w).
Proof.
  unfold run, outcome_of, main, load_env.
  destruct (dotenv w) as [|text|msg]; [reflexivity| |reflexivity].
  cbn [file_exists negb read_text bind ret].
  destruct (parse_env text !! NEXT_PUBLIC_SUPABASE_URL) as [[|c url]|];
    [reflexivity| |reflexivity].
  cbn [str_of]. cbv zeta.
  destruct (extract_project_ref (c :: url)) as [ref|] eqn:Href; [|reflexivity].
  apply extract_Some_segment in Href.
  destruct ref as [|r ref]; [discriminate|].
  destruct (schema_sql w) as [|sql|msg]; [reflexivity| |reflexivity].
  unfold report, guidance.
  destruct (truthy (parse_env text !! SUPABASE_SERVICE_ROLE_KEY)); reflexivity.
Qed.

Lemma outcome_Completed_inv w url ref key sql :
  outcome_of w = Completed url ref key sql ->
  exists cfg,
    dotenv w = Contents cfg /\
    parse_env cfg !! NEXT_PUBLIC_SUPABASE_URL = Some url /\
    extract_project_ref url = Some ref /\
    key = parse_env cfg !! SUPABASE_SERVICE_ROLE_KEY /\
    schema_sql w = Contents sql.
Proof.
  unfold outcome_of.
  destruct (dotenv w) as [|cfg|msg]; try discriminate. cbv zeta.
  destruct (parse_env cfg !! NEXT_PUBLIC_SUPABASE_URL) as [[|c u]|] eqn:Hurl;
    try discriminate.
  destruct (extract_project_ref (c :: u)) as [r|] eqn:Href; try discriminate.
  destruct (schema_sql w) as [|q|msg]; try discriminate.
  intros [= <- <- <- <-]. exists cfg. auto.
Qed.

Lemma exit_0_completed w :
  exit_code (run w) = 0%Z ->
  exists url ref key sql, outcome_of w = Completed url ref key sql.
Proof.
  rewrite run_report. destruct (outcome_of w); try discriminate. eauto 6.
Qed.

End Runs.

(** ** The environment loader (C8) *)

Section LoadEnv.

Implicit Types (line k v : str) (env : gmap str str).

Lemma split_once_cases sep s :
  (exists a b, s = a ++ sep :: b /\ ~ In sep a /\ split_once sep s = [a; b]) \/
  (~ In sep s /\ split_once sep s = [s]).
Proof.
  induction s as [|c s IH]; cbn [split_once].
  - right. split; [intros []|reflexivity].
  - destruct (N.eqb_spec c sep) as [->|Hne].
    + left. exists [], s. split; [reflexivity|]. split; [intros []|reflexivity].
    + destruct IH as [(a & b & -> & Ha & ->)|(Hs & ->)].
      * left. exists (c :: a), b. split; [reflexivity|].
        split; [|reflexivity]. intros [E|Hin]; [congruence|contradiction].
      * right. split; [|reflexivity]. intros [E|Hin]; [congruence|contradiction].
Qed.

(** The place of the first separator is unique. *)
Lemma first_sep_unique sep (a a' b b' : str) :
  a ++ sep :: b = a' ++ sep :: b' -> ~ In sep a -> ~ In sep a' ->
  a = a' /\ b = b'.
Proof.
  revert a'. induction a as [|x a IH]; intros [|y a'] E Ha Ha'; simpl in *.
  - injection E as ->. split; reflexivity.
  - injection E as -> _. exfalso. apply Ha'. left. reflexivity.
  - injection E as -> _. exfalso. apply Ha. left. reflexivity.
  - injection E as -> E. destruct (IH a' E) as [-> ->]; [tauto|tauto|].
    split; reflexivity.
Qed.

Lemma env_line_entry env line :
  env_line env line =
  match entry_of line with
  | Some (k, v) => <[k := v]> env
  | None => env
  end.
Proof.
  unfold env_line, entry_of. cbv zeta.
  destruct (nonempty (strip line) && _); [|reflexivity].
  destruct (split_once EQUALS (strip line)) as [|a [|b [|? ?]]]; reflexivity.
Qed.

Lemma entry_of_spec line k v :
  entry_of line = Some (k, v) <-> key_value_line line k v.
Proof.
  unfold entry_of, key_value_line. cbv zeta. split.
  - destruct (nonempty (strip line) && _) eqn:Hguard; [|discriminate].
    apply andb_true_iff in Hguard as [_ Hc]. apply negb_true_iff in Hc.
    destruct (split_once_cases EQUALS (strip line))
      as [(a & b & E & Ha & ->)|(_ & ->)]; [|discriminate].
    intros [= <- <-]. exists a, b. auto.
  - intros (a & b & E & Ha & Hc & -> & ->).
    rewrite Hc, E. cbn [negb andb].
    replace (nonempty (a ++ [EQUALS] ++ b)) with true by (destruct a; reflexivity).
    rewrite <- E.
    destruct (split_once_cases EQUALS (strip line))
      as [(a' & b' & E' & Ha' & ->)|(Hno & _)].
    + rewrite E in E'. destruct (first_sep_unique EQUALS a a' b b' E' Ha Ha') as [-> ->].
      reflexivity.
    + exfalso. apply Hno. rewrite E. apply in_or_app. right. left. reflexivity.
Qed.

(** A line binds at most one key, to one value. *)
Lemma key_value_line_functional line k v k' v' :
  key_value_line line k v -> key_value_line line k' v' -> k = k' /\ v = v'.
Proof.
  intros H H'. apply entry_of_spec in H, H'. rewrite H in H'.
  injection H' as -> ->. split; reflexivity.
Qed.

(** A line that starts with the comment marker is a comment, whatever
    follows. *)
Lemma comment_line_ignored line :
  startswith (lit "#") line = true -> ignored_line line.
Proof.
  intros H. apply startswith_inv in H.
  change (lit "#") with [35%N] in *. cbn [app length] in H.
  right. rewrite H. unfold strip. cbn [lstrip].
  change (isspace 35%N) with false. cbv iota.
  rewrite rstrip_cons_nonspace by reflexivity. reflexivity.
Qed.

Lemma ignored_line_no_entry line k v :
  ignored_line line -> ~ key_value_line line k v.
Proof.
  intros [Hblank|Hcomment] (a & b & E & _ & Hc & _).
  - rewrite Hblank in E. destruct a; discriminate.
  - congruence.
Qed.

(** The loop over the lines: a key is bound to the value of the last line
    that binds it, and keeps its earlier value when no line binds it. *)
Lemma foldl_env_line_lookup lines env k v :
  foldl env_line env lines !! k = Some v <->
  last_binding lines k v \/
  (env !! k = Some v /\ forall l v', In l lines -> ~ key_value_line l k v').
Proof.
  induction lines as [|l ls IH] using rev_ind.
  - simpl. split.
    + intros H. right. split; [exact H|]. intros ? ? [].
    + intros [(before & line & after & E & _)|[H _]]; [|exact H].
      destruct before; discriminate.
  - rewrite foldl_app. cbn [foldl]. rewrite env_line_entry.
    assert (Hsnoc : forall before line after,
              ls ++ [l] = before ++ line :: after ->
              (after = [] /\ line = l /\ before = ls) \/
              (exists after', after = after' ++ [l] /\ ls = before ++ line :: after')).
    { intros before line after E.
      destruct after as [|x after _] using rev_ind.
      - left. apply app_inj_tail in E as [-> ->]. auto.
      - right. exists after.
        change (before ++ line :: after ++ [x]) with (before ++ (line :: after) ++ [x]) in E.
        rewrite app_assoc in E. apply app_inj_tail in E as [-> ->].
        split; reflexivity. }
    destruct (entry_of l) as [[k0 v0]|] eqn:Hl.
    + apply entry_of_spec in Hl.
      destruct (decide (k0 = k)) as [->|Hne].
      * rewrite lookup_insert_eq. split.
        -- intros [= ->]. left. exists ls, l, []. split; [reflexivity|].
           split; [exact Hl|]. intros ? ? [].
        -- intros [(before & line & after & E & Hkv & Hafter)|[_ Hnone]].
           ++ destruct (Hsnoc _ _ _ E) as [(-> & -> & ->)|(after' & -> & ->)].
              ** destruct (key_value_line_functional _ _ _ _ _ Hl Hkv) as [_ ->].
                 reflexivity.
              ** exfalso. apply (Hafter l v0); [|exact Hl].
                 apply in_or_app. right. left. reflexivity.
           ++ exfalso. apply (Hnone l v0); [|exact Hl].
              apply in_or_app. right. left. reflexivity.
      * rewrite lookup_insert_ne by exact Hne. rewrite IH. split.
        -- intros [(before & line & after & -> & Hkv & Hafter)|[Henv Hnone]].
           ++ left. exists before, line, (after ++ [l]).
              split; [rewrite <- app_assoc; reflexivity|]. split; [exact Hkv|].
              intros x v' Hx Hxk. apply in_app_or in Hx as [Hx|[<-|[]]].
              ** apply (Hafter x v' Hx Hxk).
              ** destruct (key_value_line_functional _ _ _ _ _ Hl Hxk). congruence.
           ++ right. split; [exact Henv|].
              intros x v' Hx Hxk. apply in_app_or in Hx as [Hx|[<-|[]]].
              ** apply (Hnone x v' Hx Hxk).
              ** destruct (key_value_line_functional _ _ _ _ _ Hl Hxk). congruence.
        -- intros [(before & line & after & E & Hkv & Hafter)|[Henv Hnone]].
           ++ destruct (Hsnoc _ _ _ E) as [(-> & -> & ->)|(after' & -> & ->)].
              ** destruct (key_value_line_functional _ _ _ _ _ Hl Hkv). congruence.
              ** left. exists before, line, after'. split; [reflexivity|].
                 split; [exact Hkv|]. intros x v' Hx. apply Hafter.
                 apply in_or_app. left. exact Hx.
           ++ right. split; [exact Henv|]. intros x v' Hx. apply Hnone.
              apply in_or_app. left. exact Hx.
    + assert (Hl' : forall k' v', ~ key_value_line l k' v').
      { intros k' v' H. apply entry_of_spec in H. congruence. }
      rewrite IH. split.
      * intros [(before & line & after & -> & Hkv & Hafter)|[Henv Hnone]].
        -- left. exists before, line, (after ++ [l]).
           split; [rewrite <- app_assoc; reflexivity|]. split; [exact Hkv|].
           intros x v' Hx Hxk. apply in_app_or in Hx as [Hx|[<-|[]]].
           ++ apply (Hafter x v' Hx Hxk).
           ++ apply (Hl' _ _ Hxk).
        -- right. split; [exact Henv|].
           intros x v' Hx Hxk. apply in_app_or in Hx as [Hx|[<-|[]]].
           ++ apply (Hnone x v' Hx Hxk).
           ++ apply (Hl' _ _ Hxk).
      * intros [(before & line & after & E & Hkv & Hafter)|[Henv Hnone]].
        -- destruct (Hsnoc _ _ _ E) as [(-> & -> & ->)|(after' & -> & ->)].
           ++ exfalso. apply (Hl' _ _ Hkv).
           ++ left. exists before, line, after'. split; [reflexivity|].
              split; [exact Hkv|]. intros x v' Hx. apply Hafter.
              apply in_or_app. left. exact Hx.
        -- right. split; [exact Henv|]. intros x v' Hx. apply Hnone.
           apply in_or_app. left. exact Hx.
Qed.

Lemma parse_env_lookup text k v :
  parse_env text !! k = Some v <-> last_binding (readlines text) k v.
Proof.
  unfold parse_env. rewrite foldl_env_line_lookup. split.
  - intros [H|[H _]]; [exact H|]. rewrite lookup_empty in H. discriminate.
  - intros H. left. exact H.
Qed.

(** A key that some line binds is bound. *)
Lemma foldl_env_line_bound lines env line k v :
  In line lines -> key_value_line line k v ->
  is_Some (foldl env_line env lines !! k).
Proof.
  intros Hin Hkv. induction lines as [|l ls IH] using rev_ind; [destruct Hin|].
  rewrite foldl_app. cbn [foldl]. rewrite env_line_entry.
  apply in_app_or in Hin as [Hin|[->|[]]].
  - destruct (entry_of l) as [[k0 v0]|]; [|exact (IH Hin)].
    destruct (decide (k0 = k)) as [->|Hne].
    + rewrite lookup_insert_eq. eauto.
    + rewrite lookup_insert_ne by exact Hne. exact (IH Hin).
  - apply entry_of_spec in Hkv. rewrite Hkv, lookup_insert_eq. eauto.
Qed.

(** A key is unbound exactly when no line binds it. *)
Lemma parse_env_lookup_None text k :
  parse_env text !! k = None <->
  forall line v, In line (readlines text) -> ~ key_value_line line k v.
Proof.
  split.
  - intros Hnone line v Hin Hkv.
    destruct (foldl_env_line_bound (readlines text) ∅ line k v Hin Hkv) as [v' E].
    unfold parse_env in Hnone. congruence.
  - intros Hno. destruct (parse_env text !! k) as [v|] eqn:E; [|reflexivity].
    apply parse_env_lookup in E as (before & line & after & E & Hkv & _).
    exfalso. apply (Hno line v); [|exact Hkv].
    rewrite E. apply in_or_app. right. left. reflexivity.
Qed.

End LoadEnv.

(** ** The loader's contract (C8) *)

Section LoadEnvContract.

(** C8.  For an existing configuration file, load_env returns a mapping
    that has an entry for the key of every line of the form KEY=VALUE that
    is neither blank nor a comment, the line being split at its first [=]
    (so the value may contain [=]); the value of a key is the one of the
    last line that binds it; blank lines and comments contribute nothing.
    When the file does not exist, load_env raises and the run ends with an
    error and status 1. *)
Theorem load_env_contract (w : world) :
  (forall cfg, dotenv w = Contents cfg ->
     load_env w = ([], inr (parse_env cfg)) /\
     (forall line k v, In line (readlines cfg) -> key_value_line line k v ->
        is_Some (parse_env cfg !! k)) /\
     (forall k v, parse_env cfg !! k = Some v <-> last_binding (readlines cfg) k v) /\
     (forall line k v,
        strip line = [] \/ startswith (lit "#") line = true ->
        ~ key_value_line line k v)) /\
  (dotenv w = Missing ->
     load_env w = ([], inl (Exception (lit ".env file not found"))) /\
     exit_code (run w) = 1%Z /\
     stdout (run w) = [banner_text; env_missing_error]).
Proof.
  split.
  - intros cfg Hcfg. split; [|split; [|split]].
    + unfold load_env. rewrite Hcfg. reflexivity.
    + intros line k v Hin Hkv.
      exact (foldl_env_line_bound (readlines cfg) ∅ line k v Hin Hkv).
    + apply parse_env_lookup.
    + intros line k v [Hblank|Hcomment]; apply ignored_line_no_entry.
      * left. exact Hblank.
      * apply comment_line_ignored, Hcomment.
  - intros Hmissing. split.
    + unfold load_env. rewrite Hmissing. reflexivity.
    + rewrite run_report. unfold outcome_of. rewrite Hmissing.
      split; reflexivity.
Qed.

Lemma load_env_contract_witness :
  load_env {| dotenv := Contents sample_cfg; schema_sql := Missing |} =
    ([], inr (parse_env sample_cfg)) /\
  parse_env sample_cfg !! lit "TOKEN" = Some (lit "c==d") /\
  last_binding (readlines sample_cfg) (lit "TOKEN") (lit "c==d") /\
  parse_env sample_cfg !! lit "X" = None.
Proof.
  destruct (load_env_contract {| dotenv := Contents sample_cfg; schema_sql := Missing |})
    as [H _].
  destruct (H sample_cfg eq_refl) as (Hret & _ & Hlookup & _).
  assert (Htoken : parse_env sample_cfg !! lit "TOKEN" = Some (lit "c==d"))
    by (vm_compute; reflexivity).
  split; [exact Hret|]. split; [exact Htoken|].
  split; [apply Hlookup, Htoken|]. vm_compute. reflexivity.
Defined.

End LoadEnvContract.

(** ** Failures (C6, C7, C2) *)

Section Failures.

(** C6.  When no line of the configuration file binds the URL key, the
    run exits with status 1 after printing an error message that names
    the key. *)
Theorem missing_url_key_exits_1 (w : world) (cfg : str) :
  dotenv w = Contents cfg ->
  (forall line v, In line (readlines cfg) ->
     ~ key_value_line line NEXT_PUBLIC_SUPABASE_URL v) ->
  exit_code (run w) = 1%Z /\
  stdout (run w) = [banner_text; url_key_error] /\
  occurs NEXT_PUBLIC_SUPABASE_URL url_key_error.
Proof.
  intros Hcfg Hno. apply parse_env_lookup_None in Hno.
  rewrite run_report. unfold outcome_of. rewrite Hcfg. cbv zeta. rewrite Hno.
  split; [reflexivity|]. split; [reflexivity|].
  exists ([CROSS] ++ lit " "), (lit " not found in .env"). reflexivity.
Qed.

Lemma missing_url_key_exits_1_witness :
  let w := {| dotenv := Contents cfg_without_url; schema_sql := Contents (lit "select 1;") |} in
  exit_code (run w) = 1%Z /\
  stdout (run w) = [banner_text; url_key_error] /\
  occurs NEXT_PUBLIC_SUPABASE_URL url_key_error.
Proof.
  intros w. apply (missing_url_key_exits_1 w cfg_without_url eq_refl).
  apply parse_env_lookup_None. vm_compute. reflexivity.
Defined.

(** C7, as stated, fails: a URL value that is not of the shape
    https://{ref}.supabase.co but contains the pattern is matched, here a
    URL on another domain, and the run completes. *)
Lemma url_of_another_shape_is_matched :
  (forall ref, com_url <> project_url ref) /\
  extract_project_ref com_url = Some (lit "abc") /\
  exit_code (run world_with_com_url) = 0%Z.
Proof.
  split; [|split; vm_compute; reflexivity].
  intros ref H. apply (f_equal (@rev N)) in H.
  unfold project_url in H. rewrite !rev_app_distr in H.
  vm_compute in H. discriminate H.
Qed.

(** C7, amended.  When the pattern https://{ref}.supabase.co occurs
    nowhere in the URL value, extraction yields no identifier and the run
    exits with status 1 after printing an error message. *)
Theorem unmatched_url_exits_1 (w : world) (cfg url : str) :
  dotenv w = Contents cfg ->
  parse_env cfg !! NEXT_PUBLIC_SUPABASE_URL = Some url ->
  ~ has_project_url url ->
  extract_project_ref url = None /\
  exit_code (run w) = 1%Z /\
  stdout (run w) =
    [banner_text; if nonempty url then url_format_error else url_key_error].
Proof.
  intros Hcfg Hurl Hno. apply extract_None_iff in Hno.
  split; [exact Hno|].
  rewrite run_report. unfold outcome_of. rewrite Hcfg. cbv zeta. rewrite Hurl.
  destruct url as [|c url]; [split; reflexivity|].
  rewrite Hno. split; reflexivity.
Qed.

Lemma unmatched_url_exits_1_witness :
  let w := {| dotenv := Contents cfg_with_http_url; schema_sql := Contents (lit "select 1;") |} in
  extract_project_ref (lit "http://abc.supabase.co") = None /\
  exit_code (run w) = 1%Z /\
  stdout (run w) = [banner_text; url_format_error].
Proof.
  intros w.
  apply (unmatched_url_exits_1 w cfg_with_http_url (lit "http://abc.supabase.co") eq_refl).
  - vm_compute. reflexivity.
  - apply extract_None_iff. vm_compute. reflexivity.
Defined.

(** C2, as stated, fails: the error message of a failed run is printed
    on standard output, and nothing is written to standard error. *)
Lemma error_message_goes_to_stdout :
  exit_code (run world_without_env) = 1%Z /\
  stdout (run world_without_env) = [banner_text; env_missing_error] /\
  stderr (run world_without_env) = [] /\
  ~ In env_missing_error (stderr (run world_without_env)).
Proof.
  split; [reflexivity|]. split; [reflexivity|]. split; [reflexivity|].
  intros [].
Qed.

(** What [report] says is printed is, text by text, [expected_stdout]. *)
Lemma stdout_report (o : outcome) : stdout (report o) = expected_stdout o.
Proof.
  destruct o as [| | | | | |url ref key sql]; try reflexivity.
  unfold stdout, report, guidance. cbn [trace].
  destruct key as [[|c k]|]; reflexivity.
Qed.

(** C2, amended.  The formatted instructions, the echoed SQL and also
    the error message of every handled failure are written to standard
    output, with print; the exit status is 0 when the run completes and
    1 on any handled failure, whose error message is the last text
    printed. *)
Theorem run_output_and_status (w : world) :
  stdout (run w) = expected_stdout (outcome_of w) /\
  match error_message (outcome_of w) with
  | None => exit_code (run w) = 0%Z
  | Some msg => exit_code (run w) = 1%Z /\ last (stdout (run w)) = Some msg
  end.
Proof.
  rewrite run_report, stdout_report. split; [reflexivity|].
  destruct (outcome_of w); try reflexivity; split; reflexivity.
Qed.

End Failures.

(** ** Completed runs (C4, C5, C10) *)

Section CompletedRuns.

(** The trace of a completed run, line by line. *)
Lemma printed_by_completed url ref key sql :
  let tr := trace (report (Completed url ref key sql)) in
  printed_by 92 92 tr = [ev 92 sql] /\
  printed_by 72 83 tr = (if truthy key then (key_found_branch ref).1 else []) /\
  printed_by 85 88 tr = (if truthy key then [] else key_missing_branch.1).
Proof.
  unfold report, guidance. cbn [trace].
  destruct (truthy key); repeat split; reflexivity.
Qed.

(** A failed run prints nothing from lines 72 to 92. *)
Lemma printed_by_failed o :
  error_message o <> None ->
  printed_by 72 92 (trace (report o)) = [].
Proof. destruct o; try reflexivity. intros H. contradiction H. reflexivity. Qed.

Lemma printed_by_narrow lo hi lo' hi' tr :
  lo <= lo' -> hi' <= hi -> printed_by lo hi tr = [] -> printed_by lo' hi' tr = [].
Proof.
  unfold printed_by. intros Hlo Hhi H.
  induction tr as [|e tr IH]; [reflexivity|]. cbn [List.filter] in *.
  destruct (Nat.leb_spec lo (at_line e)), (Nat.leb_spec (at_line e) hi);
    cbn [andb] in H; try discriminate;
    destruct (Nat.leb_spec lo' (at_line e)), (Nat.leb_spec (at_line e) hi');
    cbn [andb]; try lia; auto.
Qed.

(** The text passed to the print call that echoes the schema (line 92)
    is the text reading the schema file delivered, unchanged: any event
    of that line carries exactly that text, and a completed run has
    exactly one such event. *)
Theorem schema_echoed_verbatim (w : world) :
  (forall e, In e (trace (run w)) -> at_line e = 92 ->
     schema_sql w = Contents (text e)) /\
  (exit_code (run w) = 0%Z ->
     exists sql, schema_sql w = Contents sql /\
       printed_by 92 92 (trace (run w)) = [ev 92 sql] /\
       In sql (stdout (run w))).
Proof.
  assert (Hdone : forall url ref key sql,
            outcome_of w = Completed url ref key sql ->
            schema_sql w = Contents sql /\
            printed_by 92 92 (trace (run w)) = [ev 92 sql]).
  { intros url ref key sql Ho.
    destruct (outcome_Completed_inv w _ _ _ _ Ho) as (cfg & _ & _ & _ & _ & Hsql).
    split; [exact Hsql|]. rewrite run_report, Ho.
    apply (printed_by_completed url ref key sql). }
  split.
  - intros e Hin Hline.
    assert (He : In e (printed_by 92 92 (trace (run w)))).
    { apply filter_In. split; [exact Hin|]. rewrite Hline. reflexivity. }
    destruct (error_message (outcome_of w)) as [msg|] eqn:Herr.
    + exfalso. rewrite run_report in He.
      rewrite (printed_by_narrow 72 92 92 92) in He; [destruct He|lia|lia|].
      apply printed_by_failed. congruence.
    + destruct (outcome_of w) eqn:Ho; try discriminate.
      destruct (Hdone _ _ _ _ eq_refl) as [Hsql Hp]. rewrite Hp in He.
      destruct He as [<-|[]]. exact Hsql.
  - intros Hexit.
    destruct (exit_0_completed w Hexit) as (url & ref & key & sql & Ho).
    destruct (Hdone _ _ _ _ Ho) as [Hsql Hp].
    exists sql. split; [exact Hsql|]. split; [exact Hp|].
    unfold stdout. apply in_map_iff. exists (ev 92 sql). split; [reflexivity|].
    assert (He : In (ev 92 sql) (printed_by 92 92 (trace (run w))))
      by (rewrite Hp; left; reflexivity).
    apply filter_In in He. tauto.
Qed.

Lemma schema_echoed_verbatim_witness :
  exit_code (run sample_world) = 0%Z /\
  exists sql, schema_sql sample_world = Contents sql /\
    printed_by 92 92 (trace (run sample_world)) = [ev 92 sql] /\
    In sql (stdout (run sample_world)).
Proof.
  split; [vm_compute; reflexivity|].
  apply (proj2 (schema_echoed_verbatim sample_world)).
  vm_compute. reflexivity.
Defined.


(** Translated text has no carriage return left. *)
Lemma universal_newlines_no_cr (raw : str) : ~ In CR (universal_newlines raw).
Proof.
  assert (H : forall n raw, length raw <= n -> ~ In CR (universal_newlines raw)).
  { clear raw. induction n as [|n IH]; intros raw Hlen.
    - destruct raw; [intros []|simpl in Hlen; lia].
    - destruct raw as [|c t]; [intros []|]. simpl in Hlen.
      cbn [universal_newlines]. destruct (N.eqb_spec c CR) as [->|Hc].
      + destruct t as [|c' t']; [intros [E|[]]; discriminate E|].
        simpl in Hlen.
        destruct (N.eqb c' NL); (intros [E|Hin]; [discriminate E|]);
          revert Hin; apply IH; simpl; lia.
      + intros [E|Hin]; [congruence|]. revert Hin. apply IH. lia. }
  apply (H (length raw)). lia.
Qed.





(** C5, as stated, fails: a run that stops at an earlier check prints
    neither branch, although the secret value is present. *)
Lemma present_key_without_guidance :
  parse_env (lit "SUPABASE_SERVICE_ROLE_KEY=secret") !! SUPABASE_SERVICE_ROLE_KEY =
    Some (lit "secret") /\
  stdout (run world_with_key_only) = [banner_text; url_key_error] /\
  printed_by 72 83 (trace (run world_with_key_only)) = [] /\
  printed_by 85 88 (trace (run world_with_key_only)) = [].
Proof. repeat split; vm_compute; reflexivity. Qed.

Lemma key_found_branch_texts (ref : str) :
  map text (key_found_branch ref).1 = dashboard_cli_guidance ref.
Proof. reflexivity. Qed.

Lemma key_missing_branch_texts :
  map text key_missing_branch.1 = missing_key_guidance.
Proof. reflexivity. Qed.

(** What a completed run prints from the two branches, said with the
    texts. *)
Lemma guidance_of_completed (url ref : str) (key : option str) (sql : str) :
  let tr := trace (report (Completed url ref key sql)) in
  match key with
  | Some (_ :: _) =>
      map text (printed_by 72 83 tr) = dashboard_cli_guidance ref /\
      printed_by 85 88 tr = []
  | Some [] | None =>
      printed_by 72 83 tr = [] /\
      map text (printed_by 85 88 tr) = missing_key_guidance
  end.
Proof.
  destruct (printed_by_completed url ref key sql) as (_ & H1 & H2).
  cbv zeta. rewrite H1, H2.
  destruct key as [[|c k]|]; split; reflexivity.
Qed.

(** C5, amended.  A run that passes the checks on the configuration and
    on the schema file (exit status 0) prints exactly one of the two
    guidance branches: the twelve texts of the dashboard-and-CLI branch
    (lines 72-83) when the secret value is present and not empty, the
    four texts of the missing-key branch (lines 85-88) otherwise, and
    nothing from the other branch.  A run that stops at an earlier check
    prints neither.  In no run do both appear. *)
Theorem guidance_branch_exclusive (w : world) :
  let tr := trace (run w) in
  (printed_by 72 83 tr = [] \/ printed_by 85 88 tr = []) /\
  (exit_code (run w) = 0%Z ->
     exists cfg url ref,
       dotenv w = Contents cfg /\
       parse_env cfg !! NEXT_PUBLIC_SUPABASE_URL = Some url /\
       extract_project_ref url = Some ref /\
       match parse_env cfg !! SUPABASE_SERVICE_ROLE_KEY with
       | Some (_ :: _) =>
           map text (printed_by 72 83 tr) = dashboard_cli_guidance ref /\
           printed_by 85 88 tr = []
       | Some [] | None =>
           printed_by 72 83 tr = [] /\
           map text (printed_by 85 88 tr) = missing_key_guidance
       end) /\
  (exit_code (run w) <> 0%Z ->
     printed_by 72 83 tr = [] /\ printed_by 85 88 tr = []).
Proof.
  cbv zeta.
  assert (Hfail : error_message (outcome_of w) <> None ->
            printed_by 72 83 (trace (run w)) = [] /\
            printed_by 85 88 (trace (run w)) = []).
  { intros Herr. rewrite run_report.
    split; apply (printed_by_narrow 72 92); try lia; apply printed_by_failed, Herr. }
  split; [|split].
  - destruct (outcome_of w) as [| | | | | |url ref key sql] eqn:Ho;
      try (left; apply Hfail; discriminate).
    rewrite run_report, Ho.
    pose proof (guidance_of_completed url ref key sql) as H. cbv zeta in H.
    destruct key as [[|c k]|]; destruct H as [H1 H2];
      [left; exact H1|right; exact H2|left; exact H1].
  - intros Hexit.
    destruct (exit_0_completed w Hexit) as (url & ref & key & sql & Ho).
    destruct (outcome_Completed_inv w _ _ _ _ Ho)
      as (cfg & Hcfg & Hurl & Href & Hkey & _).
    exists cfg, url, ref. repeat (split; [assumption|]).
    rewrite <- Hkey, run_report, Ho.
    exact (guidance_of_completed url ref key sql).
  - intros Hexit. apply Hfail. intros Herr. apply Hexit.
    rewrite run_report. destruct (outcome_of w); try discriminate. reflexivity.
Qed.

Lemma guidance_branch_exclusive_witness :
  (exists cfg url ref,
     dotenv sample_world = Contents cfg /\
     parse_env cfg !! NEXT_PUBLIC_SUPABASE_URL = Some url /\
     extract_project_ref url = Some ref /\
     match parse_env cfg !! SUPABASE_SERVICE_ROLE_KEY with
     | Some (_ :: _) =>
         map text (printed_by 72 83 (trace (run sample_world))) =
           dashboard_cli_guidance ref /\
         printed_by 85 88 (trace (run sample_world)) = []
     | Some [] | None =>
         printed_by 72 83 (trace (run sample_world)) = [] /\
         map text (printed_by 85 88 (trace (run sample_world))) =
           missing_key_guidance
     end) /\
  (printed_by 72 83 (trace (run world_with_key_only)) = [] /\
   printed_by 85 88 (trace (run world_with_key_only)) = []).
Proof.
  destruct (guidance_branch_exclusive sample_world) as (_ & Hdone & _).
  destruct (guidance_branch_exclusive world_with_key_only) as (_ & _ & Hfail).
  split.
  - apply Hdone. vm_compute. reflexivity.
  - apply Hfail. vm_compute. discriminate.
Defined.

(** C10.  A key bound to the empty string is treated as an absent key:
    an empty URL value gives the missing-URL-key error and status 1, an
    empty secret value makes a completed run print the four texts of the
    missing-key guidance and nothing of the dashboard-and-CLI branch, and
    a run does not distinguish a configuration in which a key is bound to
    the empty string from one in which that key is absent. *)
Theorem empty_value_treated_as_absent :
  (forall w cfg,
     dotenv w = Contents cfg ->
     parse_env cfg !! NEXT_PUBLIC_SUPABASE_URL = Some [] ->
     exit_code (run w) = 1%Z /\ stdout (run w) = [banner_text; url_key_error]) /\
  (forall w cfg,
     dotenv w = Contents cfg ->
     parse_env cfg !! SUPABASE_SERVICE_ROLE_KEY = Some [] ->
     exit_code (run w) = 0%Z ->
     printed_by 72 83 (trace (run w)) = [] /\
     map text (printed_by 85 88 (trace (run w))) = missing_key_guidance) /\
  (forall w1 w2 cfg1 cfg2 k,
     dotenv w1 = Contents cfg1 -> dotenv w2 = Contents cfg2 ->
     schema_sql w1 = schema_sql w2 ->
     parse_env cfg2 !! k = None ->
     parse_env cfg1 = <[k := []]> (parse_env cfg2) ->
     run w1 = run w2).
Proof.
  split; [|split].
  - intros w cfg Hcfg Hurl.
    rewrite run_report. unfold outcome_of. rewrite Hcfg. cbv zeta. rewrite Hurl.
    split; reflexivity.
  - intros w cfg Hcfg Hkey Hexit.
    destruct (exit_0_completed w Hexit) as (url & ref & key & sql & Ho).
    destruct (outcome_Completed_inv w _ _ _ _ Ho)
      as (cfg' & Hcfg' & _ & _ & Hkey' & _).
    rewrite Hcfg in Hcfg'. injection Hcfg' as <-. rewrite Hkey in Hkey'. subst key.
    rewrite run_report, Ho.
    exact (guidance_of_completed url ref (Some []) sql).
  - intros w1 w2 cfg1 cfg2 k Hcfg1 Hcfg2 Hschema Hnone Henv.
    rewrite !run_report. unfold outcome_of.
    rewrite Hcfg1, Hcfg2, Hschema, Henv. cbv zeta.
    destruct (decide (k = NEXT_PUBLIC_SUPABASE_URL)) as [->|Hk].
    + rewrite lookup_insert_eq, Hnone. reflexivity.
    + rewrite (lookup_insert_ne _ k NEXT_PUBLIC_SUPABASE_URL) by exact Hk.
      destruct (parse_env cfg2 !! NEXT_PUBLIC_SUPABASE_URL) as [[|c url]|];
        try reflexivity.
      destruct (extract_project_ref (c :: url)) as [ref|]; [|reflexivity].
      destruct (schema_sql w2) as [|sql|msg]; try reflexivity.
      destruct (decide (k = SUPABASE_SERVICE_ROLE_KEY)) as [->|Hk'].
      * rewrite lookup_insert_eq, Hnone. reflexivity.
      * rewrite lookup_insert_ne by exact Hk'. reflexivity.
Qed.

Lemma empty_value_treated_as_absent_witness :
  let sql := Contents (lit "select 1;") in
  let w_url := {| dotenv := Contents cfg_empty_url; schema_sql := sql |} in
  let w_key := {| dotenv := Contents cfg_empty_key; schema_sql := sql |} in
  let w_none := {| dotenv := Contents cfg_no_key; schema_sql := sql |} in
  (exit_code (run w_url) = 1%Z /\ stdout (run w_url) = [banner_text; url_key_error]) /\
  (printed_by 72 83 (trace (run w_key)) = [] /\
   map text (printed_by 85 88 (trace (run w_key))) = missing_key_guidance) /\
  run w_key = run w_none.
Proof.
  intros sql w_url w_key w_none.
  destruct empty_value_treated_as_absent as (Hurl & Hkey & Hsame).
  split; [|split].
  - apply (Hurl w_url cfg_empty_url eq_refl). vm_compute. reflexivity.
  - apply (Hkey w_key cfg_empty_key eq_refl); vm_compute; reflexivity.
  - apply (Hsame w_key w_none cfg_empty_key cfg_no_key SUPABASE_SERVICE_ROLE_KEY
             eq_refl eq_refl eq_refl); vm_compute; reflexivity.
Defined.

End CompletedRuns.

(** * Further properties of the code *)

(** ** [extract_project_ref] (lines 35-38) *)

Section ExtractMore.

(** X1.  extract_project_ref never invents a reference: what it returns
    is a non-empty text without a dot that stands in the input between
    https:// and .supabase.co, at the first place where the pattern
    occurs. *)
Theorem extract_project_ref_sound (s ref : str) :
  extract_project_ref s = Some ref ->
  segment ref = true /\
  exists pre post, s = pre ++ project_url ref ++ post /\ leftmost pre s.
Proof.
  intros E.
  destruct (extract_Some_leftmost s ref E) as (pre & post & [Hseg Hs] & Hleft).
  split; [exact Hseg|]. exists pre, post. split; assumption.
Qed.

Lemma extract_project_ref_sound_witness :
  extract_project_ref embedded_url = Some (lit "abc") /\
  segment (lit "abc") = true /\
  exists pre post,
    embedded_url = pre ++ project_url (lit "abc") ++ post /\
    leftmost pre embedded_url.
Proof.
  assert (E : extract_project_ref embedded_url = Some (lit "abc"))
    by (vm_compute; reflexivity).
  split; [exact E|].
  exact (extract_project_ref_sound embedded_url (lit "abc") E).
Defined.

End ExtractMore.

(** ** [load_env] (lines 19-33) *)

Section LoadEnvMore.

Lemma strip_trimmed (a : str) : trimmed (strip a) = true.
Proof.
  unfold trimmed, edge_space. apply andb_true_iff. split.
  - destruct (strip a) as [|c t] eqn:E; [reflexivity|].
    rewrite (strip_first _ _ _ E). reflexivity.
  - destruct (rev (strip a)) as [|c t] eqn:E; [reflexivity|].
    apply (f_equal (@rev N)) in E. rewrite rev_involutive in E. cbn [rev] in E.
    rewrite (strip_last _ _ _ E). reflexivity.
Qed.

Lemma strip_incl (a : str) (x : N) : In x (strip a) -> In x a.
Proof.
  intros Hx. destruct (strip_decomp a) as (l & r & E & _ & _).
  rewrite E. apply in_or_app. right. apply in_or_app. left. exact Hx.
Qed.

(** X2.  Every entry of the mapping load_env returns is trimmed: neither
    the key nor the value starts or ends with whitespace, and the key
    contains no [=]. *)
Theorem load_env_entries_trimmed (w : world) (env : gmap str str) :
  load_env w = ([], inr env) ->
  forall k v, env !! k = Some v ->
    trimmed k = true /\ trimmed v = true /\ ~ In EQUALS k.
Proof.
  intros Hload k v Hkv. unfold load_env in Hload.
  destruct (dotenv w) as [|cfg|msg];
    cbn [file_exists negb read_text bind ret raise] in Hload; try discriminate.
  injection Hload as <-.
  apply parse_env_lookup in Hkv as (_ & line & _ & _ & Hline & _).
  destruct Hline as (a & b & _ & Ha & _ & -> & ->).
  split; [apply strip_trimmed|]. split; [apply strip_trimmed|].
  intros Hin. apply Ha, strip_incl, Hin.
Qed.

Lemma load_env_entries_trimmed_witness :
  let w := {| dotenv := Contents sample_cfg; schema_sql := Missing |} in
  load_env w = ([], inr (parse_env sample_cfg)) /\
  parse_env sample_cfg !! lit "TOKEN" = Some (lit "c==d") /\
  forall k v, parse_env sample_cfg !! k = Some v ->
    trimmed k = true /\ trimmed v = true /\ ~ In EQUALS k.
Proof.
  intros w.
  assert (Hload : load_env w = ([], inr (parse_env sample_cfg))) by reflexivity.
  split; [exact Hload|]. split; [vm_compute; reflexivity|].
  exact (load_env_entries_trimmed w (parse_env sample_cfg) Hload).
Defined.

Lemma readlines_nonempty (s : str) : s <> [] -> readlines s <> [].
Proof.
  destruct s as [|c s]; [congruence|]. intros _. cbn [readlines].
  destruct (N.eqb c NL); [discriminate|].
  destruct (readlines s); discriminate.
Qed.

(** The lines of a text that follows a newline are found on their own. *)
Lemma readlines_app (body t : str) :
  readlines (body ++ NL :: t) = readlines (body ++ [NL]) ++ readlines t.
Proof.
  induction body as [|c body IH]; [reflexivity|].
  cbn [app readlines]. destruct (N.eqb c NL).
  - rewrite IH. reflexivity.
  - rewrite IH.
    pose proof (readlines_nonempty (body ++ [NL])) as Hne.
    destruct (readlines (body ++ [NL])) as [|l ls].
    + exfalso. apply Hne; [|reflexivity]. destruct body; discriminate.
    + reflexivity.
Qed.

(** The loop started from another mapping: the keys the lines bind are
    overridden, the others kept. *)
Lemma foldl_env_line_base (lines : list str) (env : gmap str str) (k : str) :
  foldl env_line env lines !! k =
  match foldl env_line ∅ lines !! k with
  | Some v => Some v
  | None => env !! k
  end.
Proof.
  induction lines as [|l ls IH] using rev_ind.
  - cbn [foldl]. rewrite lookup_empty. reflexivity.
  - rewrite !foldl_app. cbn [foldl]. rewrite !env_line_entry.
    destruct (entry_of l) as [[k0 v0]|]; [|exact IH].
    destruct (decide (k0 = k)) as [->|Hne].
    + rewrite !lookup_insert_eq. reflexivity.
    + rewrite !lookup_insert_ne by exact Hne. exact IH.
Qed.

(** X3.  Settings appended to a configuration that is empty or ends with
    a newline override the earlier ones: a key has the value the appended
    text gives it, and otherwise the value it had. *)
Theorem parse_env_append (cfg1 cfg2 : str) :
  cfg1 = [] \/ (exists body, cfg1 = body ++ [NL]) ->
  forall k,
    parse_env (cfg1 ++ cfg2) !! k =
    match parse_env cfg2 !! k with
    | Some v => Some v
    | None => parse_env cfg1 !! k
    end.
Proof.
  intros Hend k. unfold parse_env.
  assert (Hlines : readlines (cfg1 ++ cfg2) = readlines cfg1 ++ readlines cfg2).
  { destruct Hend as [->|(body & ->)]; [reflexivity|].
    rewrite <- app_assoc. apply readlines_app. }
  rewrite Hlines, foldl_app. apply foldl_env_line_base.
Qed.

Lemma parse_env_append_witness :
  parse_env (cfg_part_1 ++ cfg_part_2) !! lit "A" = Some (lit "1") /\
  parse_env (cfg_part_1 ++ cfg_part_2) !! lit "B" = Some (lit "3") /\
  parse_env (cfg_part_1 ++ cfg_part_2) !! lit "C" = Some (lit "4").
Proof.
  assert (Hend : cfg_part_1 = [] \/ exists body, cfg_part_1 = body ++ [NL]).
  { right. exists (lit "A=1" ++ [NL] ++ lit "B=2"). reflexivity. }
  pose proof (parse_env_append cfg_part_1 cfg_part_2 Hend) as H.
  repeat split; rewrite H; vm_compute; reflexivity.
Defined.

End LoadEnvMore.

Example parse_env_append_needs_newline :
  parse_env (lit "A=1" ++ lit "B=2") !! lit "A" = Some (lit "1B=2") /\
  parse_env (lit "A=1" ++ lit "B=2") !! lit "B" = None.
Proof. split; vm_compute; reflexivity. Qed.

(** ** The callback URL of a project URL (line 95) *)

Section CallbackMore.

Lemma slash_free_spec (s : str) :
  slash_free s = true <-> forall c, In c s -> c <> SLASH.
Proof.
  unfold slash_free. rewrite forallb_forall. split.
  - intros H c Hc ->. specialize (H _ Hc). rewrite N.eqb_refl in H. discriminate.
  - intros H c Hc. apply negb_true_iff, N.eqb_neq, H, Hc.
Qed.

Lemma startswith_head (c : N) (p s : str) :
  startswith (c :: p) s = true -> exists t, s = c :: t.
Proof. intros H. apply startswith_inv in H. eexists. exact H. Qed.

(** In [https://] followed by a text [u] without a slash, [/rest/v1]
    starts nowhere before the end of [u], whatever follows. *)
Lemma rest_v1_starts_nowhere (u v : str) (i : nat) :
  slash_free u = true -> 5 <= length u -> i < 8 + length u ->
  startswith REST_V1 (drop i (lit "https://" ++ u ++ v)) = false.
Proof.
  intros Hu Hlen Hi. rewrite slash_free_spec in Hu.
  change (lit "https://") with [104; 116; 116; 112; 115; 58; 47; 47]%N.
  change REST_V1 with (SLASH :: [114; 101; 115; 116; 47; 118; 49]%N).
  do 6 (destruct i as [|i]; [reflexivity|]).
  destruct i as [|i]; [reflexivity|].
  destruct i as [|i].
  - (* at the second slash: the fifth character after it belongs to [u] *)
    apply not_true_is_false. intros H. cbn [app drop] in H.
    apply startswith_inv in H. cbn [app length drop] in H.
    destruct u as [|c1 [|c2 [|c3 [|c4 [|c5 u]]]]]; simpl in Hlen; try lia.
    cbn [app] in H. injection H as _ _ _ _ H5 _.
    apply (Hu c5); [simpl; tauto|]. exact H5.
  - (* inside [u] *)
    cbn [app drop]. rewrite drop_app_le by (simpl in Hi; lia).
    destruct (drop i u) as [|c t] eqn:E.
    + exfalso. apply (f_equal length) in E. rewrite length_drop in E.
      simpl in E, Hi. lia.
    + cbn [app]. apply startswith_cons_ne. intros Hc.
      apply (Hu c); [|congruence].
      rewrite <- (take_drop i u), E. apply in_or_app. right. left. reflexivity.
Qed.

(** X4.  For the URL of a project whose reference contains no slash, the
    callback URL is that URL followed by /auth/v1/callback, and the same
    is obtained when the configured URL carries the /rest/v1 suffix. *)
Theorem callback_url_of_project_url (ref : str) :
  slash_free ref = true ->
  callback_url (project_url ref) = project_url ref ++ AUTH_CALLBACK /\
  callback_url (project_url ref ++ REST_V1) = project_url ref ++ AUTH_CALLBACK.
Proof.
  intros Href.
  set (u := ref ++ lit ".supabase.co").
  assert (Hu : slash_free u = true).
  { unfold u, slash_free. rewrite forallb_app. apply andb_true_iff.
    split; [exact Href|reflexivity]. }
  assert (Hlen : 5 <= length u).
  { unfold u. rewrite length_app. change (length (lit ".supabase.co")) with 12. lia. }
  assert (Hurl : forall v, project_url ref ++ v = lit "https://" ++ u ++ v).
  { intros v. unfold project_url, u. rewrite <- !app_assoc. reflexivity. }
  assert (Hsize : length (project_url ref) = 8 + length u) by reflexivity.
  unfold callback_url. fold REST_V1. split.
  - rewrite replace_absent; [reflexivity|discriminate|].
    intros Hocc. apply occurs_startswith in Hocc as (i & Hi & Hst).
    destruct (Nat.lt_ge_cases i (8 + length u)) as [Hlt|Hge].
    + rewrite <- (app_nil_r (project_url ref)), Hurl in Hst.
      rewrite (rest_v1_starts_nowhere u [] i Hu Hlen Hlt) in Hst. discriminate.
    + rewrite drop_ge in Hst by lia. discriminate.
  - replace (project_url ref ++ REST_V1) with (project_url ref ++ REST_V1 ++ [])
      by (rewrite app_nil_r; reflexivity).
    rewrite replace_first; [|discriminate|].
    + rewrite replace_nil by discriminate. rewrite !app_nil_r. reflexivity.
    + intros a' b' E.
      destruct (Nat.le_gt_cases (length (project_url ref)) (length a')) as [|Hlt];
        [assumption|exfalso].
      assert (Hst : startswith REST_V1
                (drop (length a') (project_url ref ++ REST_V1 ++ [])) = true)
        by (rewrite E, drop_app_length; apply startswith_app).
      rewrite Hurl in Hst.
      rewrite (rest_v1_starts_nowhere u _ (length a') Hu Hlen) in Hst by lia.
      discriminate.
Qed.

Lemma callback_url_of_project_url_witness :
  callback_url (lit "https://abcdefgh.supabase.co") =
    lit "https://abcdefgh.supabase.co/auth/v1/callback" /\
  callback_url (lit "https://abcdefgh.supabase.co/rest/v1") =
    lit "https://abcdefgh.supabase.co/auth/v1/callback".
Proof.
  exact (callback_url_of_project_url (lit "abcdefgh") eq_refl).
Defined.

(** A reference with a slash can join the slashes of the scheme into an
    occurrence, which is then removed. *)
Example callback_url_slash_in_ref :
  callback_url (project_url (lit "rest/v1x")) = lit "https:/x.supabase.co/auth/v1/callback".
Proof. vm_compute. reflexivity. Qed.

End CallbackMore.

(** ** [main] (lines 40-120) *)

Section MainMore.

Lemma has_project_url_extract (url : str) :
  has_project_url url -> exists ref, extract_project_ref url = Some ref.
Proof.
  intros Hhas. destruct (extract_project_ref url) as [ref|] eqn:E; [eauto|].
  exfalso. apply extract_None_iff in E. apply E, Hhas.
Qed.

Lemma extract_has_project_url (url ref : str) :
  extract_project_ref url = Some ref -> has_project_url url.
Proof.
  intros E. destruct (extract_Some_leftmost url ref E) as (pre & post & Hocc & _).
  exists pre, ref, post. exact Hocc.
Qed.

(** The outcome of a run on an acceptable configuration. *)
Lemma outcome_of_acceptable (w : world) (cfg url : str) :
  dotenv w = Contents cfg ->
  parse_env cfg !! NEXT_PUBLIC_SUPABASE_URL = Some url ->
  has_project_url url ->
  exists ref,
    extract_project_ref url = Some ref /\
    outcome_of w =
      match schema_sql w with
      | Missing => SchemaMissing url ref
      | Broken msg => SchemaError url ref msg
      | Contents sql =>
          Completed url ref (parse_env cfg !! SUPABASE_SERVICE_ROLE_KEY) sql
      end.
Proof.
  intros Hcfg Hurl Hhas.
  destruct (has_project_url_extract url Hhas) as [ref Href].
  exists ref. split; [exact Href|].
  unfold outcome_of. rewrite Hcfg. cbv zeta. rewrite Hurl.
  destruct url as [|c url]; [discriminate Href|].
  rewrite Href. reflexivity.
Qed.

(** The outcome of a run on a configuration that is not acceptable does
    not depend on the schema file. *)
Lemma outcome_of_unacceptable (w : world) (f : file) :
  ~ acceptable_config w -> outcome_of (with_schema w f) = outcome_of w.
Proof.
  intros Hno. unfold outcome_of, with_schema. cbn [dotenv schema_sql].
  destruct (dotenv w) as [|cfg|msg] eqn:Hcfg; try reflexivity. cbv zeta.
  destruct (parse_env cfg !! NEXT_PUBLIC_SUPABASE_URL) as [[|c url]|] eqn:Hurl;
    try reflexivity.
  destruct (extract_project_ref (c :: url)) as [ref|] eqn:Href; [|reflexivity].
  exfalso. apply Hno. exists cfg, (c :: url).
  split; [exact Hcfg|]. split; [exact Hurl|].
  exact (extract_has_project_url _ _ Href).
Qed.

Lemma exit_0_acceptable (w : world) :
  exit_code (run w) = 0%Z -> acceptable_config w.
Proof.
  intros Hexit.
  destruct (exit_0_completed w Hexit) as (url & ref & key & sql & Ho).
  destruct (outcome_Completed_inv w _ _ _ _ Ho)
    as (cfg & Hcfg & Hurl & Href & _ & _).
  exists cfg, url. split; [exact Hcfg|]. split; [exact Hurl|].
  exact (extract_has_project_url _ _ Href).
Qed.

(** X5.  A run exits with status 0 exactly when the configuration file
    can be read, binds the URL key to a value in which the pattern
    https://{ref}.supabase.co occurs, and the schema file can be read. *)
Theorem run_succeeds_iff (w : world) :
  exit_code (run w) = 0%Z <->
  exists cfg url sql,
    dotenv w = Contents cfg /\
    parse_env cfg !! NEXT_PUBLIC_SUPABASE_URL = Some url /\
    has_project_url url /\
    schema_sql w = Contents sql.
Proof.
  split.
  - intros Hexit.
    destruct (exit_0_completed w Hexit) as (url & ref & key & sql & Ho).
    destruct (outcome_Completed_inv w _ _ _ _ Ho)
      as (cfg & Hcfg & Hurl & Href & _ & Hsql).
    exists cfg, url, sql. repeat (split; [assumption|]).
    split; [exact (extract_has_project_url _ _ Href)|exact Hsql].
  - intros (cfg & url & sql & Hcfg & Hurl & Hhas & Hsql).
    destruct (outcome_of_acceptable w cfg url Hcfg Hurl Hhas) as (ref & _ & Ho).
    rewrite run_report, Ho, Hsql. reflexivity.
Qed.



(** X7.  With an acceptable configuration and no schema file, the run
    prints the banner, the project reference and the URL, then the
    message that supabase/schema.sql was not found, and exits with
    status 1. *)
Theorem missing_schema_exits_1 (w : world) (cfg url : str) :
  dotenv w = Contents cfg ->
  parse_env cfg !! NEXT_PUBLIC_SUPABASE_URL = Some url ->
  has_project_url url ->
  schema_sql w = Missing ->
  exists ref,
    extract_project_ref url = Some ref /\
    exit_code (run w) = 1%Z /\
    stdout (run w) =
      [banner_text;
       CLIPBOARD :: lit " Project Reference: " ++ ref;
       CLIPBOARD :: lit " Supabase URL: " ++ url ++ [NL];
       schema_missing_error].
Proof.
  intros Hcfg Hurl Hhas Hsql.
  destruct (outcome_of_acceptable w cfg url Hcfg Hurl Hhas) as (ref & Href & Ho).
  exists ref. split; [exact Href|].
  rewrite run_report, Ho, Hsql. split; reflexivity.
Qed.

Lemma missing_schema_exits_1_witness :
  exists ref,
    extract_project_ref (lit "https://abcdefgh.supabase.co") = Some ref /\
    exit_code (run world_without_schema) = 1%Z /\
    stdout (run world_without_schema) =
      [banner_text;
       CLIPBOARD :: lit " Project Reference: " ++ ref;
       CLIPBOARD :: lit " Supabase URL: " ++ lit "https://abcdefgh.supabase.co" ++ [NL];
       schema_missing_error].
Proof.
  apply (missing_schema_exits_1 world_without_schema cfg_secret_a
           (lit "https://abcdefgh.supabase.co") eq_refl).
  - vm_compute. reflexivity.
  - exists [], (lit "abcdefgh"), []. split; reflexivity.
  - reflexivity.
Defined.

(** X8.  An exception raised while a file is read is caught: the run
    prints its message, unchanged, after the error prefix, writes nothing
    to standard error and exits with status 1.  This holds for the
    configuration file and, when the configuration is acceptable, for the
    schema file. *)
Theorem read_error_reported (w : world) (msg : str) :
  dotenv w = Broken msg \/ (acceptable_config w /\ schema_sql w = Broken msg) ->
  exit_code (run w) = 1%Z /\
  last (stdout (run w)) = Some (CROSS :: lit " Error: " ++ msg) /\
  stderr (run w) = [].
Proof.
  intros [Henv|[(cfg & url & Hcfg & Hurl & Hhas) Hsql]]; rewrite run_report.
  - unfold outcome_of. rewrite Henv. repeat split; reflexivity.
  - destruct (outcome_of_acceptable w cfg url Hcfg Hurl Hhas) as (ref & _ & Ho).
    rewrite Ho, Hsql. repeat split; reflexivity.
Qed.

Lemma read_error_reported_witness :
  exit_code (run world_with_broken_schema) = 1%Z /\
  last (stdout (run world_with_broken_schema)) =
    Some (CROSS :: lit " Error: " ++ lit "[Errno 13] Permission denied") /\
  stderr (run world_with_broken_schema) = [].
Proof.
  apply (read_error_reported world_with_broken_schema). right.
  split; [|reflexivity].
  exists cfg_secret_a, (lit "https://abcdefgh.supabase.co").
  split; [reflexivity|]. split; [vm_compute; reflexivity|].
  exists [], (lit "abcdefgh"), []. split; reflexivity.
Defined.

(** X9.  The run uses the secret only as a flag: two runs whose
    configurations give the URL key the same value and the secret key
    the same truth value, with the same schema file, print the same and
    exit alike, whatever the secret is and whatever else the
    configurations contain.  In particular the secret is never printed. *)
Theorem run_ignores_secret_value (w1 w2 : world) (cfg1 cfg2 : str) :
  dotenv w1 = Contents cfg1 -> dotenv w2 = Contents cfg2 ->
  schema_sql w1 = schema_sql w2 ->
  parse_env cfg1 !! NEXT_PUBLIC_SUPABASE_URL =
    parse_env cfg2 !! NEXT_PUBLIC_SUPABASE_URL ->
  truthy (parse_env cfg1 !! SUPABASE_SERVICE_ROLE_KEY) =
    truthy (parse_env cfg2 !! SUPABASE_SERVICE_ROLE_KEY) ->
  run w1 = run w2.
Proof.
  intros Hcfg1 Hcfg2 Hschema Hurl Hkey.
  rewrite !run_report. unfold outcome_of.
  rewrite Hcfg1, Hcfg2, Hschema, Hurl. cbv zeta.
  destruct (parse_env cfg2 !! NEXT_PUBLIC_SUPABASE_URL) as [[|c url]|];
    try reflexivity.
  destruct (extract_project_ref (c :: url)) as [ref|]; [|reflexivity].
  destruct (schema_sql w2) as [|sql|msg]; try reflexivity.
  unfold report, guidance. rewrite Hkey. reflexivity.
Qed.

Lemma run_ignores_secret_value_witness :
  let sql := Contents (lit "select 1;") in
  run {| dotenv := Contents cfg_secret_a; schema_sql := sql |} =
  run {| dotenv := Contents cfg_secret_b; schema_sql := sql |}.
Proof.
  intros sql.
  apply (run_ignores_secret_value
           {| dotenv := Contents cfg_secret_a; schema_sql := sql |}
           {| dotenv := Contents cfg_secret_b; schema_sql := sql |}
           cfg_secret_a cfg_secret_b eq_refl eq_refl eq_refl);
    vm_compute; reflexivity.
Defined.

(** X10.  The checks come in order: when the configuration is not
    acceptable (the file is missing or cannot be read, the URL key is
    missing or empty, or the pattern occurs nowhere in its value), the
    schema file is not consulted, and the run is the same whatever that
    file is. *)
Theorem config_errors_come_first (w : world) (f : file) :
  ~ acceptable_config w ->
  run (with_schema w f) = run w /\
  exit_code (run w) = 1%Z.
Proof.
  intros Hno. rewrite !run_report, (outcome_of_unacceptable w f Hno).
  split; [reflexivity|].
  destruct (Z.eq_dec (exit_code (report (outcome_of w))) 0%Z) as [H0|Hne].
  - exfalso. apply Hno. rewrite <- run_report in H0.
    exact (exit_0_acceptable w H0).
  - destruct (outcome_of w); try reflexivity. contradiction Hne. reflexivity.
Qed.

Lemma config_errors_come_first_witness :
  ~ acceptable_config world_with_key_only /\
  run (with_schema world_with_key_only Missing) = run world_with_key_only /\
  exit_code (run world_with_key_only) = 1%Z.
Proof.
  assert (Hno : ~ acceptable_config world_with_key_only).
  { intros (cfg & url & Hcfg & Hurl & _). injection Hcfg as <-.
    vm_compute in Hurl. discriminate Hurl. }
  split; [exact Hno|].
  exact (config_errors_come_first world_with_key_only Missing Hno).
Defined.

End MainMore.
